(** * recipeflow: the add-recipe resolver, the mutation handlers and the
      grocery list, embedded from [src/src/App.js] (the same functions appear
      in [src/app.js]). *)

From Stdlib Require Import NArith List String Ascii Bool Lia.
From stdpp Require Import gmap strings list fin_maps.
Import ListNotations.

Open Scope N_scope.
Open Scope nat_scope.

(** ** JavaScript strings

    A JS string is a sequence of UTF-16 code units.  Literals of the source
    are written with [js "..."]. *)
Module JS.

Definition jsstring : Type := list N.

Definition js (s : string) : jsstring :=
  List.map N_of_ascii (list_ascii_of_string s).

(** [!!s] of a string: only the empty string is falsy. *)
Definition truthy (s : jsstring) : bool :=
  match s with [] => false | _ :: _ => true end.

(** [a || b] on strings. *)
Definition or_else (a b : jsstring) : jsstring :=
  if truthy a then a else b.

Definition eqb (a b : jsstring) : bool := bool_decide (a = b).

End JS.
Export JS.

(** ** Regular expressions with the backtracking semantics of
       [String.prototype.match] (no flags). *)
Module Regex.

Inductive regex : Type :=
| Eps
| Chr (a : N)
| Cls (p : N -> bool)
| Seq (r1 r2 : regex)
| Alt (r1 r2 : regex)
| Star (r : regex)
| Group (i : nat) (r : regex).

(** [r+], [r?], [r{n}] and a literal run of characters. *)
Definition Plus (r : regex) : regex := Seq r (Star r).
Definition Opt (r : regex) : regex := Alt r Eps.

Fixpoint Rep (n : nat) (r : regex) : regex :=
  match n with
  | O => Eps
  | S n' => Seq r (Rep n' r)
  end.

Fixpoint Lit (l : jsstring) : regex :=
  match l with
  | [] => Eps
  | a :: l' => Seq (Chr a) (Lit l')
  end.

(** The match array: index 0 is the whole match, index [i] is group [i];
    an index that is absent reads as [undefined]. *)
Abbreviation caps := (gmap nat jsstring).

Definition cont : Type := jsstring -> caps -> option caps.

(** Matching at the head of [s] in continuation-passing style: the
    continuation is the rest of the pattern, [None] makes the matcher
    backtrack.  Alternatives are tried left to right and [Star] is greedy.
    An iteration of [Star] that consumes nothing is rejected, as in
    ECMAScript; [length s] iterations are therefore always enough. *)
Fixpoint rmatch (r : regex) (s : jsstring) (c : caps) (k : cont)
  : option caps :=
  match r with
  | Eps => k s c
  | Chr a =>
      match s with
      | x :: s' => if N.eqb x a then k s' c else None
      | [] => None
      end
  | Cls p =>
      match s with
      | x :: s' => if p x then k s' c else None
      | [] => None
      end
  | Seq r1 r2 => rmatch r1 s c (fun s' c' => rmatch r2 s' c' k)
  | Alt r1 r2 =>
      match rmatch r1 s c k with
      | Some x => Some x
      | None => rmatch r2 s c k
      end
  | Star r1 =>
      (fix loop (n : nat) (s : jsstring) (c : caps) : option caps :=
         match n with
         | O => k s c
         | S n' =>
             match rmatch r1 s c
                     (fun s' c' =>
                        if length s' <? length s then loop n' s' c'
                        else None) with
             | Some x => Some x
             | None => k s c
             end
         end) (length s) s c
  | Group i r1 =>
      rmatch r1 s c
        (fun s' c' => k s' (<[i := take (length s - length s') s]> c'))
  end.

(** One attempt at a fixed start position. *)
Definition exec (r : regex) (s : jsstring) : option caps :=
  rmatch (Group 0 r) s ∅ (fun _ c => Some c).

(** [s.match(r)]: the leftmost start position that succeeds, [None] for
    [null]. *)
Fixpoint js_match (r : regex) (s : jsstring) : option caps :=
  match exec r s with
  | Some c => Some c
  | None =>
      match s with
      | [] => None
      | _ :: s' => js_match r s'
      end
  end.

(** [m && m[i]] as the string it yields when truthy. *)
Definition group (m : option caps) (i : nat) : option jsstring :=
  match m with
  | Some c =>
      match c !! i with
      | Some v => if truthy v then Some v else None
      | None => None
      end
  | None => None
  end.

End Regex.
Export Regex.

(** ** The metadata resolver's pure part *)

(** Character classes of the two patterns. *)
Definition in_range (lo hi x : N) : bool := (N.leb lo x && N.leb x hi)%bool.

(** [\s]: ECMAScript WhiteSpace and LineTerminator code units. *)
Definition is_space (x : N) : bool :=
  (in_range 9 13 x || N.eqb x 32 || N.eqb x 160 || N.eqb x 5760
   || in_range 8192 8202 x || N.eqb x 8232 || N.eqb x 8233
   || N.eqb x 8239 || N.eqb x 8287 || N.eqb x 12288 || N.eqb x 65279)%bool.

(** [\S] *)
Definition non_space (x : N) : bool := negb (is_space x).

(** [[^\/\n\s]] *)
Definition seg_char (x : N) : bool :=
  negb (N.eqb x 47 || N.eqb x 10 || is_space x)%bool.

(** [.]: anything but a line terminator. *)
Definition dot (x : N) : bool :=
  negb (N.eqb x 10 || N.eqb x 13 || N.eqb x 8232 || N.eqb x 8233)%bool.

(** [[?&]] *)
Definition query_sep (x : N) : bool := (N.eqb x 63 || N.eqb x 38)%bool.

(** [[a-zA-Z0-9_-]] *)
Definition id_char (x : N) : bool :=
  (in_range 97 122 x || in_range 65 90 x || in_range 48 57 x
   || N.eqb x 95 || N.eqb x 45)%bool.

Definition token : regex := Group 1 (Rep 11 (Cls id_char)).

(** [/(?:youtube\.com\/(?:[^\/\n\s]+\/\S+\/|(?:v|e(?:mbed)?)\/|.*[?&]v=)|youtu\.be\/)([a-zA-Z0-9_-]{11})/] *)
Definition youtubeRegex : regex :=
  Seq
    (Alt
       (Seq (Lit (js "youtube.com/"))
          (Alt
             (Seq (Plus (Cls seg_char))
                (Seq (Chr 47) (Seq (Plus (Cls non_space)) (Chr 47))))
             (Alt
                (Seq (Alt (Chr 118) (Seq (Chr 101) (Opt (Lit (js "mbed")))))
                   (Chr 47))
                (Seq (Star (Cls dot)) (Seq (Cls query_sep) (Lit (js "v=")))))))
       (Lit (js "youtu.be/")))
    token.

(** [/youtube\.com\/shorts\/([a-zA-Z0-9_-]{11})/] *)
Definition shortsRegex : regex :=
  Seq (Lit (js "youtube.com/shorts/")) token.

Definition getYoutubeVideoId (url : jsstring) : jsstring :=
  let match_ := js_match youtubeRegex url in
  let shortsMatch := js_match shortsRegex url in
  match group match_ 1 with
  | Some v => v
  | None =>
      match group shortsMatch 1 with
      | Some v => v
      | None => []
      end
  end.

Definition getYoutubeThumbnailUrl (videoId : jsstring) : jsstring :=
  if truthy videoId
  then js "https://img.youtube.com/vi/" ++ videoId ++ js "/hqdefault.jpg"
  else [].


(** [const categories = ['Breakfast', 'Lunch', 'Snacks', 'Dinner', 'Late-night']] *)
Definition categories : list jsstring :=
  [js "Breakfast"; js "Lunch"; js "Snacks"; js "Dinner"; js "Late-night"].

(** ** Notions the statements about the resolver use *)
Module Link.

(** A well-formed video identifier. *)
Definition is_token (t : jsstring) : Prop :=
  length t = 11 /\ forallb id_char t = true.

(** The parts of [youtubeRegex], named for the proofs: the three path shapes
    after [youtube.com/] and the alternation of the two hosts. *)
Definition segment_path : regex :=
  Seq (Plus (Cls seg_char))
    (Seq (Chr 47) (Seq (Plus (Cls non_space)) (Chr 47))).
Definition embed_path : regex :=
  Seq (Alt (Chr 118) (Seq (Chr 101) (Opt (Lit (js "mbed"))))) (Chr 47).
Definition query_path : regex :=
  Seq (Star (Cls dot)) (Seq (Cls query_sep) (Lit (js "v="))).
Definition host_prefix : regex :=
  Alt (Seq (Lit (js "youtube.com/"))
         (Alt segment_path (Alt embed_path query_path)))
    (Lit (js "youtu.be/")).

(** The capture array of a match of [<prefix><token>] that ends the input. *)
Definition found (whole t : jsstring) : caps := <[0 := whole]> (<[1 := t]> ∅).

Definition not_slash (x : N) : bool := negb (N.eqb x 47).

Definition not_y (x : N) : bool := negb (N.eqb x 121).

End Link.

(** ** The hosted document database and the handlers of [App] *)
Module Firestore.

(** Values a document field can hold, as far as the handlers look. *)
Inductive value : Type :=
| VStr (s : jsstring)
| VNum (n : N)
| VBool (b : bool)
| VNull.

Definition value_truthy (v : value) : bool :=
  match v with
  | VStr s => truthy s
  | VNum n => negb (N.eqb n 0)
  | VBool b => b
  | VNull => false
  end.

(** The record [handleSubmit] builds and [addDoc] stores. *)
Record recipe : Type := Recipe {
  youtubeUrl : jsstring;
  videoId : jsstring;
  thumbnailUrl : jsstring;
  title : jsstring;
  tags : list jsstring
}.

Abbreviation docid := jsstring.

(** The backend: the collection [artifacts/<appId>/recipes] as the list of
    its documents in query order, and the document
    [artifacts/<appId>/groceryList/myList] ([None]: it does not exist). *)
Record backend : Type := Backend {
  recipesCollection : list (docid * recipe);
  groceryListDoc : option (gmap string value)
}.

(** The part of [App]'s state the handlers touch. *)
Record app : Type := App {
  isAuthReady : bool;
  toastMessage : jsstring;
  showToast : bool;
  groceryText : value;
  isGroceryListEditing : bool
}.

(** How an awaited backend call ends. *)
Inductive settled : Type := Resolved | Rejected.

(** [showActionToast]: the message is shown at once; the 3000ms timer that
    hides it again only clears these two fields. *)
Definition showActionToast (message : jsstring) (a : app) : app :=
  App (isAuthReady a) message true (groceryText a) (isGroceryListEditing a).

Definition setGroceryText (v : value) (a : app) : app :=
  App (isAuthReady a) (toastMessage a) (showToast a) v
    (isGroceryListEditing a).

Definition setIsGroceryListEditing (b : bool) (a : app) : app :=
  App (isAuthReady a) (toastMessage a) (showToast a) (groceryText a) b.

(** [query(ref, where("videoId", "==", v))] then [getDocs]. *)
Definition getDocs_where_videoId (v : jsstring)
    (coll : list (docid * recipe)) : list (docid * recipe) :=
  List.filter (fun d => JS.eqb (videoId (snd d)) v) coll.

(** [deleteDoc(doc(db, path, id))] *)
Definition deleteDoc (id : docid) (coll : list (docid * recipe))
  : list (docid * recipe) :=
  List.filter (fun d => negb (JS.eqb (fst d) id)) coll.

(** [addDoc]: the backend assigns the identifier [id]; the new document
    appears at position [pos] of the query order. *)
Definition addDoc (id : docid) (pos : nat) (r : recipe)
    (coll : list (docid * recipe)) : list (docid * recipe) :=
  take pos coll ++ (id, r) :: drop pos coll.

(** [setDoc(ref, { content: v }, { merge: true })] *)
Definition setDoc_merge_content (v : value)
    (d : option (gmap string value)) : option (gmap string value) :=
  Some (<["content"%string := v]> (default ∅ d)).

(** [io] is how [addDoc] ends: [Some (id, pos)] when it resolves, [None] when
    it rejects.  On success the 'Recipe Added!' toast is left to a later
    animation frame and timer, so the state is unchanged here. *)
Definition handleAddRecipe (io : option (docid * nat)) (newRecipe : recipe)
    (a : app) (b : backend) : app * backend :=
  if negb (isAuthReady a) then
    (showActionToast
       (js "Application is loading. Please wait for authentication.") a, b)
  else
    match io with
    | Some (id, pos) =>
        (a, Backend (addDoc id pos newRecipe (recipesCollection b))
              (groceryListDoc b))
    | None =>
        (showActionToast (js "Failed to add recipe. Please check console.") a,
         b)
    end.

Definition handleDeleteRecipe (getDocs_io deleteDoc_io : settled)
    (videoIdToDelete : jsstring) (a : app) (b : backend) : app * backend :=
  if negb (isAuthReady a) then
    (showActionToast (js "Application is loading. Cannot delete.") a, b)
  else
    match getDocs_io with
    | Rejected =>
        (showActionToast
           (js "Failed to delete recipe. Please check console.") a, b)
    | Resolved =>
        match getDocs_where_videoId videoIdToDelete (recipesCollection b) with
        | docToDelete :: _ =>
            match deleteDoc_io with
            | Resolved =>
                (showActionToast (js "Recipe Deleted!") a,
                 Backend (deleteDoc (fst docToDelete) (recipesCollection b))
                   (groceryListDoc b))
            | Rejected =>
                (showActionToast
                   (js "Failed to delete recipe. Please check console.") a, b)
            end
        | [] => (showActionToast (js "Recipe not found!") a, b)
        end
    end.

Definition handleSaveGroceryList (setDoc_io : settled)
    (a : app) (b : backend) : app * backend :=
  if negb (isAuthReady a) then
    (showActionToast (js "Application is loading. Cannot save.") a, b)
  else
    match setDoc_io with
    | Resolved =>
        (showActionToast (js "Grocery List Saved!")
           (setIsGroceryListEditing false a),
         Backend (recipesCollection b)
           (setDoc_merge_content (groceryText a) (groceryListDoc b)))
    | Rejected =>
        (showActionToast
           (js "Failed to save grocery list. Please check console.") a, b)
    end.

(** The success callback of the grocery-list [onSnapshot]:
    [docSnap.exists() ? setGroceryText(docSnap.data().content || '')
                      : setGroceryText('')]. *)
Definition onGroceryListSnapshot (docSnap : option (gmap string value))
    (a : app) : app :=
  match docSnap with
  | Some data =>
      match data !! "content"%string with
      | Some v => setGroceryText (if value_truthy v then v else VStr []) a
      | None => setGroceryText (VStr []) a
      end
  | None => setGroceryText (VStr []) a
  end.

End Firestore.

(** ** The add-recipe dialog *)
Module Modal.

(** The [useState] slices of [AddRecipeModal]. *)
Record form : Type := Form {
  youtubeUrl : jsstring;
  thumbnailUrl : jsstring;
  videoTitle : jsstring;
  selectedTags : list jsstring;
  isValidUrl : bool;
  isLoadingThumbnail : bool;
  isFetchingTitle : bool
}.

Definition setYoutubeUrl (v : jsstring) (f : form) : form :=
  Form v (thumbnailUrl f) (videoTitle f) (selectedTags f) (isValidUrl f)
    (isLoadingThumbnail f) (isFetchingTitle f).
Definition setThumbnailUrl (v : jsstring) (f : form) : form :=
  Form (youtubeUrl f) v (videoTitle f) (selectedTags f) (isValidUrl f)
    (isLoadingThumbnail f) (isFetchingTitle f).
Definition setVideoTitle (v : jsstring) (f : form) : form :=
  Form (youtubeUrl f) (thumbnailUrl f) v (selectedTags f) (isValidUrl f)
    (isLoadingThumbnail f) (isFetchingTitle f).
Definition setSelectedTags (v : list jsstring) (f : form) : form :=
  Form (youtubeUrl f) (thumbnailUrl f) (videoTitle f) v (isValidUrl f)
    (isLoadingThumbnail f) (isFetchingTitle f).
Definition setIsValidUrl (v : bool) (f : form) : form :=
  Form (youtubeUrl f) (thumbnailUrl f) (videoTitle f) (selectedTags f) v
    (isLoadingThumbnail f) (isFetchingTitle f).
Definition setIsLoadingThumbnail (v : bool) (f : form) : form :=
  Form (youtubeUrl f) (thumbnailUrl f) (videoTitle f) (selectedTags f)
    (isValidUrl f) v (isFetchingTitle f).
Definition setIsFetchingTitle (v : bool) (f : form) : form :=
  Form (youtubeUrl f) (thumbnailUrl f) (videoTitle f) (selectedTags f)
    (isValidUrl f) (isLoadingThumbnail f) v.

(** [handleTagChange] *)
Definition handleTagChange (tag : jsstring) (f : form) : form :=
  let prevTags := selectedTags f in
  setSelectedTags
    (if existsb (JS.eqb tag) prevTags
     then List.filter (fun t => negb (JS.eqb t tag)) prevTags
     else prevTags ++ [tag]) f.

(** [handleSubmit]: the record handed to [onAddRecipe], [None] when the
    guard [isValidUrl && videoId] fails and nothing is submitted. *)
Definition handleSubmit (f : form) : option Firestore.recipe :=
  let videoId := getYoutubeVideoId (youtubeUrl f) in
  if (isValidUrl f && truthy videoId)%bool then
    Some (Firestore.Recipe (youtubeUrl f) videoId (thumbnailUrl f)
            (or_else (videoTitle f) (js "Untitled Recipe"))
            (if 0 <? length (selectedTags f) then selectedTags f
             else categories))
  else None.

(** The component together with what the browser holds for it: the pending
    debounce timer (its due time and the [youtubeUrl] its closure captured),
    the title fetches that have not settled yet (by request number), the
    video identifiers of all fetches issued so far, oldest first, and the
    clock in milliseconds. *)
Record state : Type := State {
  fields : form;
  timer : option (nat * jsstring);
  inflight : gset nat;
  issued : list jsstring;
  now : nat
}.

(** What [data.items[0]] holds: [Some t] for [snippet.title = t], [None]
    for an entry without [snippet]. *)
Definition item : Type := option jsstring.

(** How the awaited [fetch(...)] / [response.json()] pair ends:
    [Failed] when either rejects, [Json items] for the parsed body, with
    [items = None] when the body has no [items]. *)
Inductive response : Type :=
| Failed
| Json (items : option (list item)).

Inductive event : Type :=
| Change (t : nat) (v : jsstring)
| Fire (t : nat)
| Settle (i : nat) (r : response).

Definition debounce : nat := 500.

Section WithKey.

(** [process.env.REACT_APP_YOUTUBE_API_KEY]; the empty string stands for
    an unset variable as well, both are falsy. *)
Variable YOUTUBE_API_KEY : jsstring.

(** The title the [try]/[catch] around the fetch ends up setting. *)
Definition resolved_title (r : response) : jsstring :=
  match r with
  | Json (Some (Some t :: _)) => t
  | Json (Some (None :: _)) => js "Untitled Recipe (Error fetching title)"
  | Json (Some []) => js "Untitled Recipe (Video not found or private)"
  | Json None => js "Untitled Recipe (Video not found or private)"
  | Failed => js "Untitled Recipe (Error fetching title)"
  end.

(** The cleanup function the effect returned. *)
Definition cleanup (st : state) : state :=
  State (setIsFetchingTitle false (setIsLoadingThumbnail false (fields st)))
    None (inflight st) (issued st) (now st).

(** The effect body, run at time [t] with [youtubeUrl = v]. *)
Definition effect (t : nat) (st : state) : state :=
  let v := youtubeUrl (fields st) in
  let f := fields st in
  let f := if truthy v
           then setIsFetchingTitle true (setIsLoadingThumbnail true f)
           else f in
  State (setVideoTitle [] f) (Some (t + debounce, v))
    (inflight st) (issued st) t.

(** [onChange]: [setYoutubeUrl(e.target.value)].  React keeps the render
    and its effects when the value is the one already held. *)
Definition onChange (t : nat) (v : jsstring) (st : state) : state :=
  if JS.eqb v (youtubeUrl (fields st)) then
    State (fields st) (timer st) (inflight st) (issued st) t
  else
    let st := cleanup st in
    effect t
      (State (setYoutubeUrl v (fields st)) (timer st) (inflight st)
         (issued st) (now st)).

(** The timer callback up to its first [await] (or to its end). *)
Definition onTimer (t : nat) (url : jsstring) (st : state) : state :=
  let videoId := getYoutubeVideoId url in
  let f := fields st in
  if truthy videoId then
    let f := setIsLoadingThumbnail false
               (setIsValidUrl true
                  (setThumbnailUrl (getYoutubeThumbnailUrl videoId) f)) in
    if truthy YOUTUBE_API_KEY then
      State (setIsFetchingTitle true f) None
        ({[ length (issued st) ]} ∪ inflight st)
        (issued st ++ [videoId]) t
    else
      State (setVideoTitle (js "Untitled Recipe (API Key missing)") f)
        None (inflight st) (issued st) t
  else
    State
      (setIsFetchingTitle false
         (setIsLoadingThumbnail false
            (setIsValidUrl false
               (setVideoTitle [] (setThumbnailUrl [] f)))))
      None (inflight st) (issued st) t.

(** The rest of the callback once request [i] has settled with [r]. *)
Definition onSettle (i : nat) (r : response) (st : state) : state :=
  State (setIsFetchingTitle false (setVideoTitle (resolved_title r) (fields st)))
    (timer st) (inflight st ∖ {[ i ]}) (issued st) (now st).

(** One event, [None] when the browser cannot deliver it: time does not
    run backwards, a timer does not fire before it is due nor after it
    was cleared, and only a pending fetch settles. *)
Definition step (st : state) (e : event) : option state :=
  match e with
  | Change t v =>
      if now st <=? t then Some (onChange t v st) else None
  | Fire t =>
      match timer st with
      | Some (due, url) =>
          if ((due <=? t) && (now st <=? t))%bool
          then Some (onTimer t url st) else None
      | None => None
      end
  | Settle i r =>
      if bool_decide (i ∈ inflight st) then Some (onSettle i r st)
      else None
  end.

Fixpoint run (st : state) (tr : list event) : option state :=
  match tr with
  | [] => Some st
  | e :: tr' =>
      match step st e with
      | Some st' => run st' tr'
      | None => None
      end
  end.

End WithKey.

(** The dialog right after it is mounted at time 0: the effect has run once
    with the empty URL. *)
Definition mounted : state :=
  State (Form [] [] [] [] false false false) (Some (debounce, [])) ∅ [] 0.

(** What the user sees of the resolution. *)
Definition derived (st : state)
  : jsstring * jsstring * bool * bool * bool :=
  (thumbnailUrl (fields st), videoTitle (fields st), isValidUrl (fields st),
   isLoadingThumbnail (fields st), isFetchingTitle (fields st)).

(** Title and validity right after request [i] has settled with [r]. *)
Definition settled_view (key : jsstring) (st : state) (i : nat)
    (r : response) : option (jsstring * bool) :=
  option_map (fun s => (videoTitle (fields s), isValidUrl (fields s)))
    (step key st (Settle i r)).

End Modal.

(** ** The dialog together with the browser's table of pending timers

    [Modal.state] above keeps the one timer of the current effect run.  Here
    the browser's side is explicit: [setTimeout] adds an entry under a fresh
    identifier, a callback that runs takes its entry out, and nothing else
    removes an entry but [clearTimeout], which the dialog calls in the
    effect's cleanup only. *)
Module Timers.

Record state : Type := State {
  fields : Modal.form;
  timers : gmap nat (nat * jsstring);
  nextTimer : nat;
  handler : nat;
  inflight : gset nat;
  issued : list jsstring;
  now : nat
}.

Inductive event : Type :=
| Change (t : nat) (v : jsstring)
| Fire (h : nat) (t : nat)
| Settle (i : nat) (r : Modal.response).

Definition with_fields (g : Modal.form -> Modal.form) (st : state) : state :=
  State (g (fields st)) (timers st) (nextTimer st) (handler st) (inflight st)
    (issued st) (now st).

(** [setTimeout(callback, delay)] called at time [t]; [url] is the
    [youtubeUrl] the callback's closure holds.  The entry records when the
    callback is due; the identifier returned is the table's next one. *)
Definition setTimeout (t delay : nat) (url : jsstring) (st : state)
  : nat * state :=
  (nextTimer st,
   State (fields st) (<[nextTimer st := (t + delay, url)]> (timers st))
     (S (nextTimer st)) (handler st) (inflight st) (issued st) (now st)).

(** [clearTimeout(h)]: the entry goes, if it is still there. *)
Definition clearTimeout (h : nat) (st : state) : state :=
  State (fields st) (delete h (timers st)) (nextTimer st) (handler st)
    (inflight st) (issued st) (now st).

Section WithKey.

Variable YOUTUBE_API_KEY : jsstring.

(** The cleanup function the effect returned:
    [clearTimeout(handler); setIsLoadingThumbnail(false);
     setIsFetchingTitle(false)], with [handler] the identifier that effect
    run got from [setTimeout]. *)
Definition cleanup (st : state) : state :=
  with_fields
    (fun f => Modal.setIsFetchingTitle false
                (Modal.setIsLoadingThumbnail false f))
    (clearTimeout (handler st) st).

(** The effect body, run at time [t]. *)
Definition effect (t : nat) (st : state) : state :=
  let v := Modal.youtubeUrl (fields st) in
  let (h, st) := setTimeout t Modal.debounce v st in
  let f := fields st in
  let f := if truthy v
           then Modal.setIsFetchingTitle true
                  (Modal.setIsLoadingThumbnail true f)
           else f in
  State (Modal.setVideoTitle [] f) (timers st) (nextTimer st) h
    (inflight st) (issued st) t.

(** [onChange]: [setYoutubeUrl(e.target.value)]; when the value differs,
    React runs the cleanup of the previous effect run and then the effect. *)
Definition onChange (t : nat) (v : jsstring) (st : state) : state :=
  if JS.eqb v (Modal.youtubeUrl (fields st)) then
    State (fields st) (timers st) (nextTimer st) (handler st) (inflight st)
      (issued st) t
  else
    effect t (with_fields (Modal.setYoutubeUrl v) (cleanup st)).

(** The timer callback up to its first [await] (or to its end). *)
Definition onTimer (t : nat) (url : jsstring) (st : state) : state :=
  let videoId := getYoutubeVideoId url in
  let f := fields st in
  if truthy videoId then
    let f := Modal.setIsLoadingThumbnail false
               (Modal.setIsValidUrl true
                  (Modal.setThumbnailUrl (getYoutubeThumbnailUrl videoId) f)) in
    if truthy YOUTUBE_API_KEY then
      State (Modal.setIsFetchingTitle true f) (timers st) (nextTimer st)
        (handler st) ({[ length (issued st) ]} ∪ inflight st)
        (issued st ++ [videoId]) t
    else
      State (Modal.setVideoTitle (js "Untitled Recipe (API Key missing)") f)
        (timers st) (nextTimer st) (handler st) (inflight st) (issued st) t
  else
    State
      (Modal.setIsFetchingTitle false
         (Modal.setIsLoadingThumbnail false
            (Modal.setIsValidUrl false
               (Modal.setVideoTitle [] (Modal.setThumbnailUrl [] f)))))
      (timers st) (nextTimer st) (handler st) (inflight st) (issued st) t.

(** The rest of the callback once request [i] has settled with [r]. *)
Definition onSettle (i : nat) (r : Modal.response) (st : state) : state :=
  State
    (Modal.setIsFetchingTitle false
       (Modal.setVideoTitle (Modal.resolved_title r) (fields st)))
    (timers st) (nextTimer st) (handler st) (inflight st ∖ {[ i ]})
    (issued st) (now st).

(** One event, [None] when the browser cannot deliver it.  A timer callback
    runs only if its entry is in the table and due; running takes the entry
    out. *)
Definition step (st : state) (e : event) : option state :=
  match e with
  | Change t v =>
      if now st <=? t then Some (onChange t v st) else None
  | Fire h t =>
      match timers st !! h with
      | Some (due, url) =>
          if ((due <=? t) && (now st <=? t))%bool
          then Some (onTimer t url
                       (State (fields st) (delete h (timers st)) (nextTimer st)
                          (handler st) (inflight st) (issued st) (now st)))
          else None
      | None => None
      end
  | Settle i r =>
      if bool_decide (i ∈ inflight st) then Some (onSettle i r st)
      else None
  end.

Fixpoint run (st : state) (tr : list event) : option state :=
  match tr with
  | [] => Some st
  | e :: tr' =>
      match step st e with
      | Some st' => run st' tr'
      | None => None
      end
  end.

(** The dialog right after it is mounted at time 0: the effect has run once,
    on the empty URL, with no timer in the table before. *)
Definition mounted : state :=
  effect 0 (State (Modal.Form [] [] [] [] false false false) ∅ 0 0 ∅ [] 0).

End WithKey.

(** The value of the last [Change] of a trace, [v0] when it has none. *)
Fixpoint last_value (v0 : jsstring) (tr : list event) : jsstring :=
  match tr with
  | [] => v0
  | Change _ v :: tr' => last_value v tr'
  | _ :: tr' => last_value v0 tr'
  end.

(** Every [Change] of the trace alters the value and comes less than 500ms
    after the previous one (at [t0], to [v0]). *)
Fixpoint rapid (t0 : nat) (v0 : jsstring) (tr : list event) : Prop :=
  match tr with
  | [] => True
  | Change t v :: tr' => t < t0 + 500 /\ v <> v0 /\ rapid t v tr'
  | _ :: tr' => rapid t0 v0 tr'
  end.

(** The only timer that can be pending is the one of the current effect
    run. *)
Definition tidy (st : state) : Prop :=
  (forall h x, timers st !! h = Some x -> h = handler st) /\
  handler st < nextTimer st.





(** Where the dialog stands after the edit of [v0] at [t0]: its timer is the
    one entry of the table, or the table is empty and at most the one request
    was issued. *)
Inductive phase (iss0 : list jsstring) (t0 : nat) (v0 : jsstring)
    (st : state) : Prop :=
| Armed :
    timers st = {[ handler st := (t0 + Modal.debounce, v0) ]} ->
    Modal.youtubeUrl (fields st) = v0 ->
    issued st = iss0 ->
    phase iss0 t0 v0 st
| Fired :
    timers st = ∅ ->
    t0 + Modal.debounce <= now st ->
    Modal.youtubeUrl (fields st) = v0 ->
    issued st = iss0 \/ issued st = iss0 ++ [getYoutubeVideoId v0] ->
    phase iss0 t0 v0 st.

(** The view [Modal.state] has of a state and of an event. *)
Definition slot (st : state) : Modal.state :=
  Modal.State (fields st) (timers st !! handler st) (inflight st) (issued st)
    (now st).

Definition slot_event (e : event) : Modal.event :=
  match e with
  | Change t v => Modal.Change t v
  | Fire _ t => Modal.Fire t
  | Settle i r => Modal.Settle i r
  end.

End Timers.

(** Two links typed 100ms apart, the timer of the second, and its title. *)
Definition timed_burst : list Timers.event :=
  [ Timers.Change 200 (js "https://youtu.be/dQw4w9WgXcQ");
    Timers.Fire 2 700;
    Timers.Settle 0 (Modal.Json (Some [Some (js "Never Gonna Give You Up")])) ].

(** ** Sample data for the examples *)

(** A small backend for the examples: two records share a videoId. *)
Definition sample_recipe (url vid : string) : Firestore.recipe :=
  Firestore.Recipe (js url) (js vid) (getYoutubeThumbnailUrl (js vid))
    (js "Untitled Recipe") categories.

Definition sample_backend : Firestore.backend :=
  Firestore.Backend
    [ (js "doc1", sample_recipe "https://youtu.be/aaaaaaaaaaa" "aaaaaaaaaaa");
      (js "doc2", sample_recipe "https://youtu.be/dQw4w9WgXcQ" "dQw4w9WgXcQ");
      (js "doc3", sample_recipe "https://youtu.be/bbbbbbbbbbb" "bbbbbbbbbbb");
      (js "doc4", sample_recipe "https://www.youtube.com/watch?v=dQw4w9WgXcQ"
                    "dQw4w9WgXcQ") ]
    None.

Definition sample_app : Firestore.app :=
  Firestore.App true [] false (Firestore.VStr (js "eggs, milk")) true.

Definition sample_key : jsstring := js "key".

(** The user types the last two characters of a link 100ms apart; the timer
    then runs and the title arrives. *)
Definition sample_burst : list Modal.event :=
  [ Modal.Change 200 (js "https://youtu.be/dQw4w9WgXcQ");
    Modal.Fire 700;
    Modal.Settle 0 (Modal.Json (Some [Some (js "Never Gonna Give You Up")])) ].

(** ** Further notions for the resolver *)
Module LinkShape.

(** The input starts with [v=]. *)
Definition starts_with_v (s : jsstring) : bool :=
  match s with
  | a :: b :: _ => (N.eqb a 118 && N.eqb b 61)%bool
  | _ => false
  end.

(** No [?v=] or [&v=] occurs in the input. *)
Fixpoint v_param_free (s : jsstring) : bool :=
  match s with
  | [] => true
  | y :: z => (negb (query_sep y && starts_with_v z) && v_param_free z)%bool
  end.

Definition not_sep (x : N) : bool := negb (query_sep x).

(** The heads [(?:v|e(?:mbed)?)\/] accepts. *)
Definition embed_heads : list jsstring := [js "embed/"; js "v/"; js "e/"].

End LinkShape.

(** ** The home view: search box and category sections *)
Module Home.

(** [s.startsWith(sub)] and [s.includes(sub)] on code units. *)
Fixpoint starts_with (sub s : jsstring) : bool :=
  match sub, s with
  | [], _ => true
  | a :: sub', b :: s' => (N.eqb a b && starts_with sub' s')%bool
  | _ :: _, [] => false
  end.

Fixpoint includes (s sub : jsstring) : bool :=
  (starts_with sub s ||
   match s with
   | [] => false
   | _ :: s' => includes s' sub
   end)%bool.

(** The [recipes] state: [{ id: doc.id, ...doc.data() }] for each document
    of the snapshot, in the snapshot's order. *)
Definition onRecipesSnapshot (docs : list (Firestore.docid * Firestore.recipe))
  : list (Firestore.docid * Firestore.recipe) :=
  List.map (fun d => (fst d, snd d)) docs.

Section WithLowerCase.

(** [String.prototype.toLowerCase], the host's Unicode case mapping. *)
Variable toLowerCase : jsstring -> jsstring.

(** [recipes.filter(recipe =>
       recipe.title.toLowerCase().includes(searchTerm.toLowerCase()))] *)
Definition filteredRecipes
    (recipes : list (Firestore.docid * Firestore.recipe))
    (searchTerm : jsstring) : list (Firestore.docid * Firestore.recipe) :=
  List.filter
    (fun recipe =>
       includes (toLowerCase (Firestore.title (snd recipe)))
         (toLowerCase searchTerm))
    recipes.

(** [filteredRecipes.filter((recipe) => recipe.tags.includes(category))],
    the cards of one category section. *)
Definition category_section
    (recipes : list (Firestore.docid * Firestore.recipe))
    (searchTerm category : jsstring)
  : list (Firestore.docid * Firestore.recipe) :=
  List.filter
    (fun recipe => existsb (JS.eqb category) (Firestore.tags (snd recipe)))
    (filteredRecipes recipes searchTerm).

End WithLowerCase.

(** A case mapping for the examples: ASCII letters only. *)
Definition ascii_lower (s : jsstring) : jsstring :=
  List.map (fun x => if in_range 65 90 x then (x + 32)%N else x) s.

End Home.

(** ** What the dialog renders and a run of tag clicks *)
Module ModalView.

(** [disabled={!isValidUrl || !youtubeUrl || isFetchingTitle}] of the submit
    button. *)
Definition submitDisabled (f : Modal.form) : bool :=
  (negb (Modal.isValidUrl f) || negb (truthy (Modal.youtubeUrl f))
   || Modal.isFetchingTitle f)%bool.

(** The checkboxes clicked one after the other. *)
Definition handleTagChanges (tags : list jsstring) (f : Modal.form)
  : Modal.form :=
  fold_left (fun f tag => Modal.handleTagChange tag f) tags f.

(** The states of the dialog in which the preview and the flag agree. *)
Definition preview_consistent (f : Modal.form) : Prop :=
  (Modal.isValidUrl f = true /\
   exists t, Link.is_token t /\
             Modal.thumbnailUrl f = getYoutubeThumbnailUrl t) \/
  (Modal.isValidUrl f = false /\ Modal.thumbnailUrl f = []).

(** Without a key: no request is pending, and until the timer has run the
    fetching flag is on exactly when the input is non-empty. *)
Definition keyless (st : Modal.state) : Prop :=
  Modal.inflight st = ∅ /\
  match Modal.timer st with
  | Some _ =>
      Modal.isFetchingTitle (Modal.fields st)
      = truthy (Modal.youtubeUrl (Modal.fields st))
  | None =>
      Modal.isFetchingTitle (Modal.fields st)
      = truthy (Modal.youtubeUrl (Modal.fields st)) \/
      Modal.isValidUrl (Modal.fields st) = false
  end.

End ModalView.

(** * Properties *)

(** ** The matcher *)
Module RegexFacts.

(** The defining equations, for rewriting without unfolding a pattern. *)
Lemma rmatch_seq r1 r2 s c k :
  rmatch (Seq r1 r2) s c k = rmatch r1 s c (fun s' c' => rmatch r2 s' c' k).
Proof. reflexivity. Qed.

Lemma rmatch_alt r1 r2 s c k :
  rmatch (Alt r1 r2) s c k =
  match rmatch r1 s c k with
  | Some x => Some x
  | None => rmatch r2 s c k
  end.
Proof. reflexivity. Qed.

Lemma rmatch_group i r s c k :
  rmatch (Group i r) s c k =
  rmatch r s c
    (fun s' c' => k s' (<[i := take (length s - length s') s]> c')).
Proof. reflexivity. Qed.

(** A successful match went through its continuation, on what is left of
    the input. *)
Lemma rmatch_reaches r : forall s c k x,
  rmatch r s c k = Some x ->
  exists pre s' c', s = pre ++ s' /\ k s' c' = Some x.
Proof.
  induction r as [|a|p|r1 IH1 r2 IH2|r1 IH1 r2 IH2|r1 IH1|i r1 IH1];
    intros s c k x H; simpl in H.
  - exists [], s, c. auto.
  - destruct s as [|y s']; [discriminate|].
    destruct (N.eqb y a); [|discriminate]. exists [y], s', c. auto.
  - destruct s as [|y s']; [discriminate|].
    destruct (p y); [|discriminate]. exists [y], s', c. auto.
  - apply IH1 in H as (p1 & s1 & c1 & -> & H).
    apply IH2 in H as (p2 & s2 & c2 & -> & H).
    exists (p1 ++ p2), s2, c2. now rewrite <- app_assoc.
  - destruct (rmatch r1 s c k) eqn:E.
    + inversion H; subst. eauto.
    + eauto.
  - remember (length s) as n eqn:En. clear En.
    revert s c H. induction n as [|n IHn]; intros s c H.
    + exists [], s, c. auto.
    + destruct (rmatch r1 s c _) eqn:E.
      * inversion H; subst. apply IH1 in E as (p1 & s1 & c1 & -> & E).
        destruct (length s1 <? length (p1 ++ s1)); [|discriminate].
        apply IHn in E as (p2 & s2 & c2 & -> & E).
        exists (p1 ++ p2), s2, c2. now rewrite <- app_assoc.
      * exists [], s, c. auto.
  - apply IH1 in H as (p1 & s1 & c1 & -> & H). eauto.
Qed.

(** Greedy repetition of a character class, one character at a time. *)
Lemma star_cls_nil p c k : rmatch (Star (Cls p)) [] c k = k [] c.
Proof. reflexivity. Qed.

Lemma star_cls_cons p a s c k :
  rmatch (Star (Cls p)) (a :: s) c k =
  if p a then
    match rmatch (Star (Cls p)) s c k with
    | Some x => Some x
    | None => k (a :: s) c
    end
  else k (a :: s) c.
Proof.
  cbn [rmatch length]. destruct (p a); [|reflexivity].
  assert (E : (length s <? S (length s)) = true) by (apply Nat.ltb_lt; lia).
  now rewrite E.
Qed.

Lemma rmatch_none r s c k :
  (forall pre s' c', s = pre ++ s' -> k s' c' = None) ->
  rmatch r s c k = None.
Proof.
  intros H. destruct (rmatch r s c k) as [x|] eqn:E; [|reflexivity].
  apply rmatch_reaches in E as (pre & s' & c' & -> & E).
  now rewrite (H pre s' c') in E.
Qed.

(** [p{n}] consumes exactly [n] characters of the class. *)
Lemma rep_cls_inv p n : forall s c k x,
  rmatch (Rep n (Cls p)) s c k = Some x ->
  exists t rest, s = t ++ rest /\ length t = n /\ forallb p t = true /\
                 k rest c = Some x.
Proof.
  induction n as [|n IH]; intros s c k x H; simpl in H.
  - exists [], s. auto.
  - destruct s as [|y s']; [discriminate|].
    destruct (p y) eqn:Ey; [|discriminate].
    apply IH in H as (t & rest & -> & Hl & Hp & Hk).
    exists (y :: t), rest. simpl. rewrite Ey, Hp, Hl. auto.
Qed.

Lemma rep_cls_run p : forall t rest c k,
  forallb p t = true ->
  rmatch (Rep (length t) (Cls p)) (t ++ rest) c k = k rest c.
Proof.
  induction t as [|y t IH]; intros rest c k H; simpl in *; [reflexivity|].
  apply andb_true_iff in H as [Hy Ht]. rewrite Hy. auto.
Qed.

Lemma take_consumed (t rest : jsstring) :
  take (length (t ++ rest) - length rest) (t ++ rest) = t.
Proof.
  rewrite length_app.
  replace (length t + length rest - length rest) with (length t) by lia.
  apply take_app_length.
Qed.

(** A literal is matched against a prefix of the input. *)
Lemma lit_run : forall l s c k, rmatch (Lit l) (l ++ s) c k = k s c.
Proof.
  induction l as [|a l IH]; intros s c k; simpl; [reflexivity|].
  rewrite N.eqb_refl. apply IH.
Qed.

Lemma lit_inv : forall l s c k x,
  rmatch (Lit l) s c k = Some x -> exists s', s = l ++ s' /\ k s' c = Some x.
Proof.
  induction l as [|a l IH]; intros s c k x H; simpl in H; [eauto|].
  destruct s as [|y s]; [discriminate|].
  destruct (N.eqb y a) eqn:E; [|discriminate].
  apply N.eqb_eq in E as ->.
  apply IH in H as (s' & -> & H). eauto.
Qed.

(** The search returns what some start position returned. *)
Lemma js_match_exec r : forall s x,
  js_match r s = Some x -> exists s', exec r s' = Some x.
Proof.
  induction s as [|a s IH]; intros x H; simpl in H.
  - destruct (exec r []) eqn:E; [|discriminate]. inversion H; subst; eauto.
  - destruct (exec r (a :: s)) eqn:E.
    + inversion H; subst; eauto.
    + eauto.
Qed.

Lemma js_match_here r s x : exec r s = Some x -> js_match r s = Some x.
Proof. intros H. destruct s; simpl; now rewrite H. Qed.

Lemma js_match_skip r a s :
  exec r (a :: s) = None -> js_match r (a :: s) = js_match r s.
Proof. intros H. simpl. now rewrite H. Qed.

End RegexFacts.

(** ** The resolver *)
Module ResolverFacts.
Import RegexFacts Link.

(** Whatever precedes the identifier in a pattern, group 1 of a successful
    attempt holds eleven identifier characters. *)
Lemma token_group pre s x :
  exec (Seq pre token) s = Some x ->
  exists t, x !! 1 = Some t /\ is_token t.
Proof.
  unfold exec, token. intros H.
  rewrite rmatch_group, rmatch_seq in H.
  apply rmatch_reaches in H as (p1 & s1 & c1 & _ & H).
  rewrite rmatch_group in H.
  apply rep_cls_inv in H as (t & rest & -> & Hl & Hp & H).
  inversion H; subst. exists t.
  rewrite lookup_insert_ne by discriminate.
  rewrite take_consumed, lookup_insert_eq. repeat split; assumption.
Qed.

Lemma group_token pre s t :
  group (js_match (Seq pre token) s) 1 = Some t -> is_token t.
Proof.
  unfold group. destruct (js_match _ s) as [x|] eqn:E; [|discriminate].
  apply js_match_exec in E as (s' & E).
  apply token_group in E as (t' & -> & Ht).
  destruct (truthy t'); [|discriminate]. now intros [= <-].
Qed.

Lemma token_truthy t : is_token t -> truthy t = true.
Proof. intros [Hl _]. destruct t; [discriminate|reflexivity]. Qed.

Lemma token_run t rest c k :
  is_token t -> rmatch token (t ++ rest) c k = k rest (<[1 := t]> c).
Proof.
  intros [Hl Hp]. unfold token. rewrite rmatch_group, <- Hl.
  rewrite rep_cls_run by assumption. now rewrite take_consumed.
Qed.

(** What an identifier character cannot be. *)
Lemma id_char_ne x y : id_char y = false -> id_char x = true -> N.eqb x y = false.
Proof.
  intros Hy Hx. apply N.eqb_neq. intros ->. now rewrite Hx in Hy.
Qed.

Lemma id_char_query_sep x : id_char x = true -> query_sep x = false.
Proof.
  intros H. unfold query_sep.
  now rewrite (id_char_ne x 63), (id_char_ne x 38).
Qed.

Lemma forallb_weaken (p q : N -> bool) l :
  (forall x, p x = true -> q x = true) ->
  forallb p l = true -> forallb q l = true.
Proof.
  intros Hpq. induction l as [|a l IH]; simpl; [reflexivity|].
  intros H. apply andb_true_iff in H as [Ha Hl].
  now rewrite (Hpq a Ha), IH.
Qed.

Lemma forallb_suffix_head (p : N -> bool) l pre y s :
  forallb p l = true -> l = pre ++ y :: s -> p y = true.
Proof.
  intros H ->. rewrite forallb_app in H. simpl in H.
  apply andb_true_iff in H as [_ H]. now apply andb_true_iff in H as [H _].
Qed.

Lemma youtubeRegex_parts : youtubeRegex = Seq host_prefix token.
Proof. reflexivity. Qed.

(** [segment_path] needs a slash further on. *)
Lemma segment_path_needs_slash s c k :
  forallb not_slash s = true -> rmatch segment_path s c k = None.
Proof.
  intros Hs. unfold segment_path. rewrite rmatch_seq.
  apply rmatch_none. intros pre s' c' E. rewrite rmatch_seq.
  destruct s' as [|y s']; [reflexivity|]. cbn [rmatch].
  pose proof (forallb_suffix_head _ _ _ _ _ Hs E) as Hy.
  unfold not_slash in Hy. apply negb_true_iff in Hy. now rewrite Hy.
Qed.

Lemma embed_path_first a s c k :
  N.eqb a 118 = false -> N.eqb a 101 = false ->
  rmatch embed_path (a :: s) c k = None.
Proof. intros H1 H2. unfold embed_path. cbn [rmatch]. now rewrite H1, H2. Qed.

Lemma star_cls_through p k c x : forall pre s,
  forallb p pre = true ->
  rmatch (Star (Cls p)) s c k = Some x ->
  rmatch (Star (Cls p)) (pre ++ s) c k = Some x.
Proof.
  induction pre as [|a pre IH]; intros s Hp H; [exact H|].
  simpl in Hp. apply andb_true_iff in Hp as [Ha Hp].
  rewrite <- app_comm_cons, star_cls_cons, Ha. now rewrite (IH s Hp H).
Qed.

(** [.*[?&]v=] on [<pre>?v=<token>]: the greedy [.*] runs to the end and
    backs up to the last separator. *)
Lemma query_path_run pre t c k x :
  forallb dot pre = true -> is_token t -> k t c = Some x ->
  rmatch query_path (pre ++ 63%N :: js "v=" ++ t) c k = Some x.
Proof.
  intros Hpre [Hl Hp] Hk. unfold query_path. rewrite rmatch_seq.
  apply star_cls_through; [assumption|].
  rewrite star_cls_cons. change (dot 63) with true. cbv iota.
  rewrite rmatch_none.
  - rewrite rmatch_seq. cbn [rmatch]. change (query_sep 63) with true.
    cbv iota. now rewrite lit_run.
  - intros p1 s1 c1 E. rewrite rmatch_seq.
    destruct s1 as [|y s1]; [reflexivity|]. cbn [rmatch].
    assert (Hall : forallb (fun a => negb (query_sep a)) (js "v=" ++ t) = true).
    { rewrite forallb_app. apply andb_true_iff. split; [reflexivity|].
      eapply forallb_weaken; [|exact Hp].
      intros a Ha. now rewrite (id_char_query_sep a Ha). }
    pose proof (forallb_suffix_head _ _ _ _ _ Hall E) as Hy.
    apply negb_true_iff in Hy. now rewrite Hy.
Qed.

Lemma found_group whole t :
  is_token t -> group (Some (found whole t)) 1 = Some t.
Proof.
  intros Ht. unfold group, found.
  rewrite lookup_insert_ne by discriminate.
  now rewrite lookup_insert_eq, (token_truthy t Ht).
Qed.

Lemma exec_watch t :
  is_token t ->
  exec youtubeRegex (js "youtube.com/" ++ js "watch" ++ 63%N :: js "v=" ++ t)
  = Some (found (js "youtube.com/" ++ js "watch" ++ 63%N :: js "v=" ++ t) t).
Proof.
  intros Ht. rewrite youtubeRegex_parts. unfold exec.
  rewrite rmatch_group, rmatch_seq. unfold host_prefix.
  rewrite rmatch_alt, rmatch_seq, lit_run, rmatch_alt.
  rewrite segment_path_needs_slash.
  2:{ change (js "watch" ++ 63%N :: js "v=" ++ t)
        with (js "watch?v=" ++ t).
      rewrite forallb_app. apply andb_true_iff. split; [reflexivity|].
      destruct Ht as [_ Hp]. eapply forallb_weaken; [|exact Hp].
      intros a Ha. unfold not_slash. now rewrite (id_char_ne a 47). }
  rewrite rmatch_alt.
  change (js "watch" ++ 63%N :: js "v=" ++ t)
    with (119%N :: (js "atch" ++ 63%N :: js "v=" ++ t)) at 1.
  rewrite embed_path_first by reflexivity.
  change (119%N :: (js "atch" ++ 63%N :: js "v=" ++ t))
    with (js "watch" ++ 63%N :: js "v=" ++ t).
  erewrite query_path_run; [reflexivity|reflexivity|exact Ht|].
  rewrite <- (app_nil_r t) at 1. rewrite token_run by exact Ht.
  unfold found. do 2 f_equal.
  rewrite Nat.sub_0_r. apply firstn_all.
Qed.

Lemma exec_short_host t :
  is_token t ->
  exec youtubeRegex (js "youtu.be/" ++ t)
  = Some (found (js "youtu.be/" ++ t) t).
Proof.
  intros Ht. rewrite youtubeRegex_parts. unfold exec.
  rewrite rmatch_group, rmatch_seq. unfold host_prefix.
  rewrite rmatch_alt, rmatch_seq.
  destruct (rmatch (Lit (js "youtube.com/")) _ _ _) eqn:F.
  - apply lit_inv in F as (s2 & F & _). discriminate F.
  - rewrite lit_run. rewrite <- (app_nil_r t) at 1.
    rewrite token_run by exact Ht.
    unfold found. do 2 f_equal.
    rewrite Nat.sub_0_r. apply firstn_all.
Qed.

(** Both hosts start with [y]: no attempt succeeds elsewhere. *)
Lemma exec_needs_y a s :
  not_y a = true -> exec youtubeRegex (a :: s) = None.
Proof.
  intros H. apply negb_true_iff in H.
  rewrite youtubeRegex_parts. unfold exec.
  rewrite rmatch_group, rmatch_seq. unfold host_prefix.
  rewrite rmatch_alt, rmatch_seq. cbn [rmatch Lit js List.map list_ascii_of_string].
  change (N_of_ascii "y") with 121%N. now rewrite H.
Qed.

Lemma js_match_skip_prefix : forall pre s,
  forallb not_y pre = true ->
  js_match youtubeRegex (pre ++ s) = js_match youtubeRegex s.
Proof.
  induction pre as [|a pre IH]; intros s H; [reflexivity|].
  simpl in H. apply andb_true_iff in H as [Ha Hp].
  rewrite <- app_comm_cons, js_match_skip by now apply exec_needs_y.
  now apply IH.
Qed.

Lemma getYoutubeVideoId_found whole t url :
  is_token t -> js_match youtubeRegex url = Some (found whole t) ->
  getYoutubeVideoId url = t.
Proof.
  intros Ht H. unfold getYoutubeVideoId. cbv zeta.
  now rewrite H, (found_group whole t Ht).
Qed.

(** The long forms of a link to the video [t]. *)
Lemma watch_link pre t :
  forallb not_y pre = true -> is_token t ->
  getYoutubeVideoId (pre ++ js "youtube.com/watch?v=" ++ t) = t.
Proof.
  intros Hpre Ht. eapply getYoutubeVideoId_found; [exact Ht|].
  rewrite js_match_skip_prefix by exact Hpre.
  apply js_match_here. exact (exec_watch t Ht).
Qed.

Lemma short_host_link pre t :
  forallb not_y pre = true -> is_token t ->
  getYoutubeVideoId (pre ++ js "youtu.be/" ++ t) = t.
Proof.
  intros Hpre Ht. eapply getYoutubeVideoId_found; [exact Ht|].
  rewrite js_match_skip_prefix by exact Hpre.
  apply js_match_here. exact (exec_short_host t Ht).
Qed.

(** *** Plain short-form links are not matched by the general pattern *)

Lemma segment_path_two_slashes s c k x :
  rmatch segment_path s c k = Some x ->
  exists p1 p2 rest, s = p1 ++ 47%N :: p2 ++ 47%N :: rest.
Proof.
  unfold segment_path. rewrite rmatch_seq. intros H.
  apply rmatch_reaches in H as (p1 & s1 & c1 & -> & H).
  rewrite rmatch_seq in H. cbn [rmatch] in H.
  destruct s1 as [|y s2]; [discriminate|].
  destruct (N.eqb y 47) eqn:Ey; [|discriminate].
  apply N.eqb_eq in Ey as ->.
  apply rmatch_reaches in H as (p2 & s3 & c3 & -> & H).
  cbn [rmatch] in H. destruct s3 as [|z rest]; [discriminate|].
  destruct (N.eqb z 47) eqn:Ez; [|discriminate].
  apply N.eqb_eq in Ez as ->. eauto.
Qed.

Lemma no_slash_count s :
  forallb not_slash s = true -> count_occ N.eq_dec s 47%N = 0.
Proof.
  induction s as [|a s IH]; [reflexivity|]. cbn [forallb].
  intros H. apply andb_true_iff in H as [Ha Hs].
  unfold not_slash in Ha. apply negb_true_iff, N.eqb_neq in Ha.
  rewrite count_occ_cons_neq by exact Ha. now apply IH.
Qed.

Lemma token_no_slash t : is_token t -> forallb not_slash t = true.
Proof.
  intros [_ Hp]. eapply forallb_weaken; [|exact Hp].
  intros a Ha. unfold not_slash. now rewrite (id_char_ne a 47).
Qed.

Lemma query_path_needs_sep s c k :
  forallb (fun a => negb (query_sep a)) s = true ->
  rmatch query_path s c k = None.
Proof.
  intros Hs. unfold query_path. rewrite rmatch_seq.
  apply rmatch_none. intros pre s' c' E. rewrite rmatch_seq.
  destruct s' as [|y s']; [reflexivity|]. cbn [rmatch].
  pose proof (forallb_suffix_head _ _ _ _ _ Hs E) as Hy.
  apply negb_true_iff in Hy. now rewrite Hy.
Qed.

Lemma exec_shorts_link t :
  is_token t ->
  exec youtubeRegex (js "youtube.com/" ++ js "shorts/" ++ t) = None.
Proof.
  intros Ht. rewrite youtubeRegex_parts. unfold exec.
  rewrite rmatch_group, rmatch_seq. unfold host_prefix.
  rewrite rmatch_alt, rmatch_seq, lit_run, rmatch_alt.
  destruct (rmatch segment_path _ _ _) eqn:F.
  { apply segment_path_two_slashes in F as (p1 & p2 & rest & F).
    apply (f_equal (fun l => count_occ N.eq_dec l 47%N)) in F.
    rewrite !count_occ_app, !count_occ_cons_eq in F by reflexivity.
    rewrite !count_occ_app, !count_occ_cons_eq in F by reflexivity.
    rewrite (no_slash_count t (token_no_slash t Ht)) in F.
    change (count_occ N.eq_dec (js "shorts/") 47%N) with 1 in F. lia. }
  rewrite rmatch_alt.
  change (js "shorts/" ++ t) with (115%N :: (js "horts/" ++ t)) at 1.
  rewrite embed_path_first by reflexivity.
  rewrite query_path_needs_sep.
  2:{ change (115%N :: (js "horts/" ++ t)) with (js "shorts/" ++ t).
      rewrite forallb_app. apply andb_true_iff. split; [reflexivity|].
      destruct Ht as [_ Hp]. eapply forallb_weaken; [|exact Hp].
      intros a Ha. now rewrite (id_char_query_sep a Ha). }
  destruct (rmatch (Lit (js "youtu.be/")) _ _ _) eqn:G; [|reflexivity].
  apply lit_inv in G as (s2 & G & _). discriminate G.
Qed.

(** Both hosts contain a dot, which no identifier character is. *)
Lemma exec_id_chars u :
  forallb id_char u = true -> exec youtubeRegex u = None.
Proof.
  intros Hu. rewrite youtubeRegex_parts. unfold exec.
  rewrite rmatch_group, rmatch_seq. unfold host_prefix.
  rewrite rmatch_alt, rmatch_seq.
  destruct (rmatch (Lit (js "youtube.com/")) _ _ _) eqn:F.
  { apply lit_inv in F as (s2 & -> & _).
    rewrite forallb_app in Hu. discriminate Hu. }
  destruct (rmatch (Lit (js "youtu.be/")) _ _ _) eqn:G; [|reflexivity].
  apply lit_inv in G as (s2 & -> & _).
  rewrite forallb_app in Hu. discriminate Hu.
Qed.

Lemma js_match_id_chars : forall u,
  forallb id_char u = true -> js_match youtubeRegex u = None.
Proof.
  induction u as [|a u IH]; intros Hu; [reflexivity|].
  rewrite js_match_skip by now apply exec_id_chars.
  cbn [forallb] in Hu. apply andb_true_iff in Hu as [_ Hu]. now apply IH.
Qed.

Lemma shorts_link_no_general_match pre t :
  forallb not_y pre = true -> is_token t ->
  js_match youtubeRegex (pre ++ js "youtube.com/shorts/" ++ t) = None.
Proof.
  intros Hpre Ht. rewrite js_match_skip_prefix by exact Hpre.
  change (js "youtube.com/shorts/" ++ t)
    with (121%N :: (js "outube.com/shorts/" ++ t)).
  rewrite js_match_skip by exact (exec_shorts_link t Ht).
  rewrite js_match_skip_prefix by reflexivity.
  apply js_match_id_chars. now destruct Ht.
Qed.

Lemma shorts_link_match pre t :
  forallb not_y pre = true -> is_token t ->
  group (js_match (Seq (Lit (js "youtube.com/shorts/")) token)
           (pre ++ js "youtube.com/shorts/" ++ t)) 1 = Some t.
Proof.
  intros Hpre Ht.
  induction pre as [|a pre IH].
  - cbn [app]. erewrite js_match_here.
    + apply (found_group (js "youtube.com/shorts/" ++ t) t Ht).
    + unfold exec. rewrite rmatch_group, rmatch_seq, lit_run.
      rewrite <- (app_nil_r t) at 1. rewrite token_run by exact Ht.
      unfold found. do 2 f_equal.
      rewrite Nat.sub_0_r. apply firstn_all.
  - cbn [forallb] in Hpre. apply andb_true_iff in Hpre as [Ha Hpre].
    rewrite <- app_comm_cons. cbn [js_match].
    destruct (exec _ (a :: pre ++ _)) eqn:F; [|now apply IH].
    exfalso. unfold exec in F. rewrite rmatch_group, rmatch_seq in F.
    apply lit_inv in F as (s2 & F & _). injection F as -> _.
    discriminate Ha.
Qed.

(** A plain short-form link resolves to its token. *)
Lemma shorts_link pre t :
  forallb not_y pre = true -> is_token t ->
  getYoutubeVideoId (pre ++ js "youtube.com/shorts/" ++ t) = t.
Proof.
  intros Hpre Ht. unfold getYoutubeVideoId. cbv zeta.
  rewrite (shorts_link_no_general_match pre t Hpre Ht).
  cbn [group]. change shortsRegex
    with (Seq (Lit (js "youtube.com/shorts/")) token).
  now rewrite (shorts_link_match pre t Hpre Ht).
Qed.

End ResolverFacts.

(** C10.  For every input string, getYoutubeVideoId returns either the empty
    string or a string of exactly 11 characters, each of them in
    [A-Z], [a-z], [0-9], underscore or hyphen. *)
Theorem getYoutubeVideoId_empty_or_token (url : jsstring) :
  getYoutubeVideoId url = [] \/
  (length (getYoutubeVideoId url) = 11 /\
   forallb id_char (getYoutubeVideoId url) = true).
Proof.
  unfold getYoutubeVideoId.
  destruct (group (js_match youtubeRegex url) 1) as [v|] eqn:E1.
  - right. exact (ResolverFacts.group_token _ _ _ E1).
  - destruct (group (js_match shortsRegex url) 1) as [v|] eqn:E2.
    + right. exact (ResolverFacts.group_token _ _ _ E2).
    + now left.
Qed.

(** C5, as stated, fails: a short-form link that carries a [v=] query
    parameter matches the short-form pattern with token [abcdefghijk], but
    the general pattern is consulted first and yields the parameter's value,
    which is not what the long-form links to [abcdefghijk] yield. *)
Lemma short_link_with_v_parameter :
  group (js_match shortsRegex
           (js "https://www.youtube.com/shorts/abcdefghijk?v=ABCDEFGHIJK")) 1
    = Some (js "abcdefghijk") /\
  getYoutubeVideoId
    (js "https://www.youtube.com/shorts/abcdefghijk?v=ABCDEFGHIJK")
    = js "ABCDEFGHIJK" /\
  getYoutubeVideoId (js "https://www.youtube.com/watch?v=abcdefghijk")
    = js "abcdefghijk" /\
  getYoutubeVideoId (js "https://youtu.be/abcdefghijk") = js "abcdefghijk".
Proof. vm_compute. repeat split; reflexivity. Qed.

(** C5, amended.  For every input string on which the general pattern does
    not match and the short-form pattern matches with token [t],
    getYoutubeVideoId returns [t]; so it does on the plain short-form link
    [<pre>youtube.com/shorts/<t>], and it returns the same [t] for the
    long-form links [<pre>youtube.com/watch?v=<t>] and [<pre>youtu.be/<t>]
    ([pre] is a scheme-and-host prefix without the letter y, such as
    [https://www.] or the empty string). *)
Theorem shorts_token_same_as_long_form (url t pre : jsstring) :
  js_match youtubeRegex url = None ->
  group (js_match shortsRegex url) 1 = Some t ->
  forallb Link.not_y pre = true ->
  getYoutubeVideoId url = t /\
  getYoutubeVideoId (pre ++ js "youtube.com/shorts/" ++ t) = t /\
  getYoutubeVideoId (pre ++ js "youtube.com/watch?v=" ++ t) = t /\
  getYoutubeVideoId (pre ++ js "youtu.be/" ++ t) = t.
Proof.
  intros Hgen Hshort Hpre.
  assert (Ht : Link.is_token t)
    by exact (ResolverFacts.group_token _ _ _ Hshort).
  split; [|split; [|split]].
  - unfold getYoutubeVideoId. cbv zeta. now rewrite Hgen, Hshort.
  - now apply ResolverFacts.shorts_link.
  - now apply ResolverFacts.watch_link.
  - now apply ResolverFacts.short_host_link.
Qed.

Lemma shorts_token_same_as_long_form_witness :
  getYoutubeVideoId (js "https://www.youtube.com/shorts/dQw4w9WgXcQ?feature=share")
    = js "dQw4w9WgXcQ" /\
  getYoutubeVideoId (js "https://www." ++ js "youtube.com/shorts/" ++ js "dQw4w9WgXcQ")
    = js "dQw4w9WgXcQ" /\
  getYoutubeVideoId (js "https://www." ++ js "youtube.com/watch?v=" ++ js "dQw4w9WgXcQ")
    = js "dQw4w9WgXcQ" /\
  getYoutubeVideoId (js "https://www." ++ js "youtu.be/" ++ js "dQw4w9WgXcQ")
    = js "dQw4w9WgXcQ".
Proof.
  apply (shorts_token_same_as_long_form
           (js "https://www.youtube.com/shorts/dQw4w9WgXcQ?feature=share")
           (js "dQw4w9WgXcQ") (js "https://www."));
    vm_compute; reflexivity.
Defined.

(** ** The mutation handlers *)
Module HandlerFacts.
Import Firestore.

Lemma eqb_eq a b : JS.eqb a b = true <-> a = b.
Proof. unfold JS.eqb. apply bool_decide_eq_true. Qed.

Lemma eqb_neq a b : JS.eqb a b = false <-> a <> b.
Proof. unfold JS.eqb. apply bool_decide_eq_false. Qed.

Lemma eqb_refl a : JS.eqb a a = true.
Proof. now apply eqb_eq. Qed.

(** No document matches the query. *)
Lemma getDocs_none v coll :
  Forall (fun d => videoId (snd d) <> v) coll ->
  getDocs_where_videoId v coll = [].
Proof.
  unfold getDocs_where_videoId.
  induction 1 as [|d coll Hd _ IH]; simpl; [reflexivity|].
  apply eqb_neq in Hd. now rewrite Hd.
Qed.

(** The query's first document is the first match of the collection. *)
Lemma getDocs_first v before d after :
  Forall (fun e => videoId (snd e) <> v) before ->
  videoId (snd d) = v ->
  getDocs_where_videoId v (before ++ d :: after)
  = d :: getDocs_where_videoId v after.
Proof.
  intros Hb Hd. unfold getDocs_where_videoId.
  rewrite List.filter_app. fold (getDocs_where_videoId v before).
  rewrite (getDocs_none v before Hb). simpl.
  apply eqb_eq in Hd. now rewrite Hd.
Qed.

Lemma first_match_split v (coll : list (docid * recipe)) :
  Exists (fun e => videoId (snd e) = v) coll ->
  exists before d after,
    coll = before ++ d :: after /\ videoId (snd d) = v /\
    Forall (fun e => videoId (snd e) <> v) before.
Proof.
  induction 1 as [d coll Hd|e coll _ IH].
  - exists [], d, coll. auto.
  - destruct (decide (videoId (snd e) = v)) as [He|He].
    + exists [], e, coll. auto.
    + destruct IH as (before & d & after & -> & Hd & Hb).
      exists (e :: before), d, after. auto.
Qed.

(** Deleting by an identifier no document carries changes nothing. *)
Lemma deleteDoc_absent id (coll : list (docid * recipe)) :
  ~ In id (List.map fst coll) -> deleteDoc id coll = coll.
Proof.
  unfold deleteDoc. induction coll as [|e coll IH]; [reflexivity|].
  intros H. assert (He : JS.eqb (fst e) id = false)
    by (apply eqb_neq; intros E; apply H; now left).
  cbn [List.filter]. rewrite He. cbn [negb]. rewrite IH; [reflexivity|].
  intros Hin. apply H. now right.
Qed.

(** Identifiers being unique, [deleteDoc] removes the one document. *)
Lemma deleteDoc_unique before d after :
  List.NoDup (List.map fst (before ++ d :: after)) ->
  deleteDoc (fst d) (before ++ d :: after) = before ++ after.
Proof.
  intros Hnd. rewrite map_app in Hnd. simpl in Hnd.
  pose proof (NoDup_remove_2 _ _ _ Hnd) as Hnotin.
  unfold deleteDoc. rewrite List.filter_app. cbn [List.filter].
  rewrite eqb_refl. cbn [negb].
  fold (deleteDoc (fst d) before). fold (deleteDoc (fst d) after).
  rewrite !deleteDoc_absent; [reflexivity| |];
    intros Hin; apply Hnotin, in_or_app; auto.
Qed.

End HandlerFacts.

(** C3.  With the session bootstrapped and the query answered, deleting an
    identifier that no record of the collection carries reports
    'Recipe not found!' and leaves the backend unchanged. *)
Theorem delete_missing_reports_not_found
    (deleteDoc_io : Firestore.settled) (videoIdToDelete : jsstring)
    (a : Firestore.app) (b : Firestore.backend) :
  Firestore.isAuthReady a = true ->
  Forall (fun d => Firestore.videoId (snd d) <> videoIdToDelete)
    (Firestore.recipesCollection b) ->
  let r := Firestore.handleDeleteRecipe Firestore.Resolved deleteDoc_io
             videoIdToDelete a b in
  Firestore.toastMessage (fst r) = js "Recipe not found!" /\
  Firestore.showToast (fst r) = true /\
  snd r = b.
Proof.
  intros Hready Hnone. unfold Firestore.handleDeleteRecipe.
  rewrite Hready, (HandlerFacts.getDocs_none _ _ Hnone). simpl. auto.
Qed.

(** C4.  With the session bootstrapped and both backend calls answered,
    deleting an identifier that some record carries removes exactly the first
    such record in query order and keeps every other record, further records
    with the same videoId included, in place (document identifiers are unique
    within the collection). *)
Theorem delete_removes_first_match
    (videoIdToDelete : jsstring) (a : Firestore.app) (b : Firestore.backend) :
  Firestore.isAuthReady a = true ->
  List.NoDup (List.map fst (Firestore.recipesCollection b)) ->
  Exists (fun d => Firestore.videoId (snd d) = videoIdToDelete)
    (Firestore.recipesCollection b) ->
  exists before d after,
    Firestore.recipesCollection b = before ++ d :: after /\
    Firestore.videoId (snd d) = videoIdToDelete /\
    Forall (fun e => Firestore.videoId (snd e) <> videoIdToDelete) before /\
    let r := Firestore.handleDeleteRecipe Firestore.Resolved Firestore.Resolved
               videoIdToDelete a b in
    Firestore.recipesCollection (snd r) = before ++ after /\
    Firestore.groceryListDoc (snd r) = Firestore.groceryListDoc b /\
    Firestore.toastMessage (fst r) = js "Recipe Deleted!".
Proof.
  intros Hready Hnd Hex.
  destruct (HandlerFacts.first_match_split _ _ Hex)
    as (before & d & after & Hcoll & Hd & Hb).
  exists before, d, after. repeat split; try assumption.
  all: unfold Firestore.handleDeleteRecipe; rewrite Hready, Hcoll;
    rewrite (HandlerFacts.getDocs_first _ _ _ _ Hb Hd); simpl;
    try reflexivity.
  rewrite Hcoll in Hnd. now apply HandlerFacts.deleteDoc_unique.
Qed.

(** C8.  With the session bootstrapped and the write answered, saving the
    grocery list stores exactly the editor's text (the empty text included)
    in the [content] field of the singleton document, and a subscription
    event that delivers this document sets the displayed text to it. *)
Theorem grocery_save_then_load
    (text : jsstring) (a a' : Firestore.app) (b : Firestore.backend) :
  Firestore.isAuthReady a = true ->
  Firestore.groceryText a = Firestore.VStr text ->
  let saved := snd (Firestore.handleSaveGroceryList Firestore.Resolved a b) in
  (exists data,
     Firestore.groceryListDoc saved = Some data /\
     data !! "content"%string = Some (Firestore.VStr text)) /\
  Firestore.groceryText
    (Firestore.onGroceryListSnapshot (Firestore.groceryListDoc saved) a')
  = Firestore.VStr text.
Proof.
  intros Hready Htext. unfold Firestore.handleSaveGroceryList.
  rewrite Hready, Htext. simpl. split.
  - eexists. split; [reflexivity|]. apply lookup_insert_eq.
  - unfold Firestore.onGroceryListSnapshot, Firestore.setDoc_merge_content.
    rewrite lookup_insert_eq. simpl. now destruct text.
Qed.

Lemma delete_missing_reports_not_found_witness :
  let r := Firestore.handleDeleteRecipe Firestore.Resolved Firestore.Resolved
             (js "zzzzzzzzzzz") sample_app sample_backend in
  Firestore.toastMessage (fst r) = js "Recipe not found!" /\
  Firestore.showToast (fst r) = true /\
  snd r = sample_backend.
Proof.
  apply (delete_missing_reports_not_found Firestore.Resolved
           (js "zzzzzzzzzzz") sample_app sample_backend).
  - reflexivity.
  - simpl. repeat constructor; discriminate.
Defined.

Lemma delete_removes_first_match_witness :
  exists before d after,
    Firestore.recipesCollection sample_backend = before ++ d :: after /\
    Firestore.videoId (snd d) = js "dQw4w9WgXcQ" /\
    Forall (fun e => Firestore.videoId (snd e) <> js "dQw4w9WgXcQ") before /\
    let r := Firestore.handleDeleteRecipe Firestore.Resolved Firestore.Resolved
               (js "dQw4w9WgXcQ") sample_app sample_backend in
    Firestore.recipesCollection (snd r) = before ++ after /\
    Firestore.groceryListDoc (snd r) = Firestore.groceryListDoc sample_backend /\
    Firestore.toastMessage (fst r) = js "Recipe Deleted!".
Proof.
  apply (delete_removes_first_match (js "dQw4w9WgXcQ") sample_app
           sample_backend).
  - reflexivity.
  - simpl. repeat constructor; simpl; intuition discriminate.
  - simpl. apply Exists_cons_tl, Exists_cons_hd. reflexivity.
Defined.

(** The sample run of C4 spelled out: [doc2] goes, its duplicate [doc4]
    stays. *)
Example delete_keeps_duplicate :
  List.map fst
    (Firestore.recipesCollection
       (snd (Firestore.handleDeleteRecipe Firestore.Resolved Firestore.Resolved
               (js "dQw4w9WgXcQ") sample_app sample_backend)))
  = [js "doc1"; js "doc3"; js "doc4"].
Proof. vm_compute. reflexivity. Qed.

Lemma grocery_save_then_load_witness :
  let saved := snd (Firestore.handleSaveGroceryList Firestore.Resolved
                      sample_app sample_backend) in
  (exists data,
     Firestore.groceryListDoc saved = Some data /\
     data !! "content"%string = Some (Firestore.VStr (js "eggs, milk"))) /\
  Firestore.groceryText
    (Firestore.onGroceryListSnapshot (Firestore.groceryListDoc saved)
       (Firestore.setGroceryText (Firestore.VStr (js "stale")) sample_app))
  = Firestore.VStr (js "eggs, milk").
Proof.
  apply (grocery_save_then_load (js "eggs, milk") sample_app
           (Firestore.setGroceryText (Firestore.VStr (js "stale")) sample_app)
           sample_backend); reflexivity.
Defined.

(** C7.  A submission that passes the guard hands [onAddRecipe] a record
    whose tags are the full category list when no tag is selected and exactly
    the selected tags otherwise; with the session bootstrapped and the write
    answered, that record is the one stored. *)
Theorem submit_tags_default_to_categories (f : Modal.form) :
  Modal.isValidUrl f = true ->
  getYoutubeVideoId (Modal.youtubeUrl f) <> [] ->
  exists r,
    Modal.handleSubmit f = Some r /\
    (Modal.selectedTags f = [] ->
     Firestore.tags r =
       [js "Breakfast"; js "Lunch"; js "Snacks"; js "Dinner"; js "Late-night"]) /\
    (Modal.selectedTags f <> [] -> Firestore.tags r = Modal.selectedTags f) /\
    forall a b id pos,
      Firestore.isAuthReady a = true ->
      In (id, r)
        (Firestore.recipesCollection
           (snd (Firestore.handleAddRecipe (Some (id, pos)) r a b))).
Proof.
  intros Hvalid Hid. unfold Modal.handleSubmit. cbv zeta.
  rewrite Hvalid.
  destruct (getYoutubeVideoId (Modal.youtubeUrl f)) as [|x vid] eqn:E;
    [contradiction|].
  cbn [truthy andb]. eexists. split; [reflexivity|]. cbn [Firestore.tags].
  split; [|split].
  - intros ->. reflexivity.
  - intros Hsel. destruct (Modal.selectedTags f); [contradiction|reflexivity].
  - intros a b id pos Hready. unfold Firestore.handleAddRecipe.
    rewrite Hready. cbn [negb snd Firestore.recipesCollection].
    unfold Firestore.addDoc. apply in_or_app. right. now left.
Qed.

Lemma submit_tags_default_to_categories_witness :
  exists r,
    Modal.handleSubmit
      (Modal.Form (js "https://youtu.be/dQw4w9WgXcQ")
         (getYoutubeThumbnailUrl (js "dQw4w9WgXcQ")) [] [] true false false)
    = Some r /\
    Firestore.tags r = categories.
Proof.
  destruct (submit_tags_default_to_categories
              (Modal.Form (js "https://youtu.be/dQw4w9WgXcQ")
                 (getYoutubeThumbnailUrl (js "dQw4w9WgXcQ")) [] [] true false
                 false))
    as (r & Hr & Hnone & _).
  - reflexivity.
  - vm_compute. discriminate.
  - exists r. split; [exact Hr|]. apply Hnone. reflexivity.
Defined.

(** ** The debounced resolution in the dialog *)
Module ModalFacts.
Import Modal.

Lemma step_change key st t v :
  now st <= t -> step key st (Change t v) = Some (onChange t v st).
Proof.
  intros H. cbn [step]. apply Nat.leb_le in H. now rewrite H.
Qed.

Lemma step_fire key st t due url :
  timer st = Some (due, url) -> due <= t -> now st <= t ->
  step key st (Fire t) = Some (onTimer key t url st).
Proof.
  intros Ht Hd Hn. cbn [step]. rewrite Ht.
  apply Nat.leb_le in Hd, Hn. now rewrite Hd, Hn.
Qed.

Lemma step_fire_early key st t due url :
  timer st = Some (due, url) -> t < due -> step key st (Fire t) = None.
Proof.
  intros Ht Hd. cbn [step]. rewrite Ht.
  apply Nat.leb_gt in Hd. now rewrite Hd.
Qed.

Lemma step_settle key st i r :
  i ∈ inflight st -> step key st (Settle i r) = Some (onSettle i r st).
Proof. intros H. cbn [step]. now rewrite bool_decide_eq_true_2. Qed.

(** An edit that alters the value re-arms the timer and leaves the
    requests alone. *)
Lemma onChange_new t v st :
  v <> youtubeUrl (fields st) ->
  onChange t v st =
  State
    (setVideoTitle []
       (let f := setYoutubeUrl v
                   (setIsFetchingTitle false
                      (setIsLoadingThumbnail false (fields st))) in
        if truthy v
        then setIsFetchingTitle true (setIsLoadingThumbnail true f)
        else f))
    (Some (t + debounce, v)) (inflight st) (issued st) t.
Proof.
  intros H. unfold onChange. apply HandlerFacts.eqb_neq in H. rewrite H.
  reflexivity.
Qed.

End ModalFacts.

(** ** The debounce over the browser's timer table *)
Module TimersFacts.
Import Timers.

Lemma delivered key st e st' :
  step key st e = Some st' ->
  (exists t v, e = Change t v /\ now st <= t /\ st' = onChange t v st) \/
  (exists h t due url,
     e = Fire h t /\ timers st !! h = Some (due, url) /\ due <= t /\
     st' = onTimer key t url
             (State (fields st) (delete h (timers st)) (nextTimer st)
                (handler st) (inflight st) (issued st) (now st))) \/
  (exists i r, e = Settle i r /\ i ∈ inflight st /\ st' = onSettle i r st).
Proof.
  destruct e as [t v|h t|i r]; cbn [step]; intros H.
  - destruct (now st <=? t) eqn:Hn; [|discriminate]. injection H as <-.
    apply Nat.leb_le in Hn. left. eauto.
  - destruct (timers st !! h) as [[due url]|] eqn:Ht; [|discriminate].
    destruct (due <=? t) eqn:Hd; [|discriminate].
    destruct (now st <=? t); [|discriminate]. injection H as <-.
    apply Nat.leb_le in Hd. right. left. eauto 8.
  - destruct (bool_decide (i ∈ inflight st)) eqn:Hi; [|discriminate].
    injection H as <-. apply bool_decide_eq_true_1 in Hi.
    right. right. eauto.
Qed.

(** What an edit does to the table and to the requests: the cleanup takes
    the current effect's entry out, the effect puts in a fresh one. *)
Lemma edit_rearms t v st :
  v <> Modal.youtubeUrl (fields st) ->
  timers (onChange t v st)
  = <[nextTimer st := (t + Modal.debounce, v)]>
      (delete (handler st) (timers st)) /\
  handler (onChange t v st) = nextTimer st /\
  nextTimer (onChange t v st) = S (nextTimer st) /\
  Modal.youtubeUrl (fields (onChange t v st)) = v /\
  issued (onChange t v st) = issued st /\
  inflight (onChange t v st) = inflight st /\
  now (onChange t v st) = t.
Proof.
  intros H. unfold onChange. apply HandlerFacts.eqb_neq in H. rewrite H.
  unfold effect, cleanup, with_fields, clearTimeout, setTimeout.
  cbn [fields timers nextTimer handler inflight issued now
       Modal.setYoutubeUrl Modal.youtubeUrl].
  repeat split. now destruct (truthy v).
Qed.

Lemma edit_same_value t v st :
  v = Modal.youtubeUrl (fields st) ->
  onChange t v st
  = State (fields st) (timers st) (nextTimer st) (handler st) (inflight st)
      (issued st) t.
Proof.
  intros H. unfold onChange. apply HandlerFacts.eqb_eq in H. now rewrite H.
Qed.

Lemma onTimer_shape key t url st :
  timers (onTimer key t url st) = timers st /\
  nextTimer (onTimer key t url st) = nextTimer st /\
  handler (onTimer key t url st) = handler st /\
  now (onTimer key t url st) = t /\
  Modal.youtubeUrl (fields (onTimer key t url st))
  = Modal.youtubeUrl (fields st) /\
  (issued (onTimer key t url st) = issued st \/
   issued (onTimer key t url st) = issued st ++ [getYoutubeVideoId url]).
Proof.
  unfold onTimer. cbv zeta.
  destruct (truthy (getYoutubeVideoId url)); [destruct (truthy key)|];
    cbn [timers nextTimer handler now fields issued Modal.youtubeUrl
         Modal.setIsFetchingTitle Modal.setIsLoadingThumbnail
         Modal.setIsValidUrl Modal.setThumbnailUrl Modal.setVideoTitle];
    auto 10.
Qed.

(** A tidy table is empty once the current effect's entry is cleared. *)
Lemma tidy_cleared st :
  tidy st -> delete (handler st) (timers st) = ∅.
Proof.
  intros [Hown _]. apply map_empty. intros h.
  destruct (decide (h = handler st)) as [->|Hne].
  - apply lookup_delete_eq.
  - rewrite lookup_delete_ne by congruence.
    destruct (timers st !! h) as [x|] eqn:E; [|reflexivity].
    now apply Hown in E.
Qed.

Lemma mounted_tidy : tidy mounted.
Proof.
  split; cbn.
  - intros h x H. apply lookup_insert_Some in H as [[<- _]|[_ H]];
      [reflexivity|]. rewrite lookup_empty in H. discriminate H.
  - lia.
Qed.

Lemma step_tidy key st e st' :
  tidy st -> step key st e = Some st' -> tidy st'.
Proof.
  intros Htidy Hstep. pose proof Htidy as [Hown Hlt].
  destruct (delivered _ _ _ _ Hstep)
    as [(t & v & _ & _ & ->)
       |[(h & t & due & url & _ & _ & _ & ->)|(i & r & _ & _ & ->)]].
  - destruct (decide (v = Modal.youtubeUrl (fields st))) as [E|E].
    + rewrite (edit_same_value t v st E). exact Htidy.
    + destruct (edit_rearms t v st E) as (Ht & Hh & Hn & _).
      split.
      * intros h x. rewrite Ht, Hh, (tidy_cleared st Htidy).
        intros H. apply lookup_insert_Some in H as [[<- _]|[_ H]];
          [reflexivity|]. rewrite lookup_empty in H. discriminate H.
      * rewrite Hh, Hn. lia.
  - destruct (onTimer_shape key t url
                (State (fields st) (delete h (timers st)) (nextTimer st)
                   (handler st) (inflight st) (issued st) (now st)))
      as (Ht & Hn & Hh & _).
    split.
    + intros h' x. rewrite Ht, Hh. cbn [timers handler].
      intros H. apply lookup_delete_Some in H as [_ H]. now apply Hown in H.
    + rewrite Hh, Hn. exact Hlt.
  - exact Htidy.
Qed.

(** Every state the mounted dialog reaches has a tidy table. *)
Lemma reachable_tidy key : forall tr st st',
  tidy st -> run key st tr = Some st' -> tidy st'.
Proof.
  induction tr as [|e tr IH]; intros st st' Ht Hrun.
  - cbn in Hrun. now injection Hrun as <-.
  - cbn [run] in Hrun. destruct (step key st e) as [st1|] eqn:E;
      [|discriminate].
    exact (IH st1 st' (step_tidy key st e st1 Ht E) Hrun).
Qed.





(** The burst: only the last edit's timer is in the table, and it runs at
    most once. *)
Lemma phase_run key iss0 : forall tr t0 v0 st st',
  phase iss0 t0 v0 st -> rapid t0 v0 tr -> run key st tr = Some st' ->
  issued st' = iss0 \/
  issued st' = iss0 ++ [getYoutubeVideoId (last_value v0 tr)].
Proof.
  induction tr as [|e tr IH]; intros t0 v0 st st' Hph Hrapid Hrun.
  - cbn in Hrun. injection Hrun as <-.
    destruct Hph as [_ _ Hi|_ _ _ Hi]; auto.
  - cbn [run] in Hrun. destruct (step key st e) as [st1|] eqn:Hstep;
      [|discriminate].
    destruct (delivered _ _ _ _ Hstep)
      as [(t & v & -> & Hnow & ->)
         |[(h & t & due & url & -> & Hh & Hdue & ->)|(i & r & -> & _ & ->)]];
      cbn [rapid last_value] in *.
    + destruct Hrapid as (Hlt & Hne & Hrapid).
      destruct Hph as [Htm Hurl Hi|Htm Hlate Hurl Hi];
        [|unfold Modal.debounce in Hlate; lia].
      apply (IH t v (onChange t v st) st'); [|exact Hrapid|exact Hrun].
      assert (Hv : v <> Modal.youtubeUrl (fields st)) by now rewrite Hurl.
      destruct (edit_rearms t v st Hv) as (Ht & Hhd & _ & Hu & Hiss & _).
      apply Armed; [|exact Hu|now rewrite Hiss].
      rewrite Ht, Hhd, Htm, delete_singleton_eq. apply insert_empty.
    + destruct (onTimer_shape key t url
                  (State (fields st) (delete h (timers st)) (nextTimer st)
                     (handler st) (inflight st) (issued st) (now st)))
        as (Ht & _ & _ & Hn & Hu & Hiss).
      cbn [timers fields issued] in Ht, Hu, Hiss.
      destruct Hph as [Htm Hurl Hi|Htm Hlate Hurl Hi].
      * rewrite Htm in Hh. apply lookup_singleton_Some in Hh as [<- [= <- <-]].
        apply (IH t0 v0 _ st') in Hrun; [exact Hrun| |exact Hrapid].
        apply Fired.
        -- rewrite Ht, Htm. apply delete_singleton_eq.
        -- rewrite Hn. exact Hdue.
        -- now rewrite Hu.
        -- rewrite <- Hi. exact Hiss.
      * rewrite Htm, lookup_empty in Hh. discriminate Hh.
    + apply (IH t0 v0 _ st') in Hrun; [exact Hrun| |exact Hrapid].
      destruct Hph as [Htm Hurl Hi|Htm Hlate Hurl Hi];
        [apply Armed|apply Fired]; assumption.
Qed.

(** On tidy states the one-timer view of [Modal] follows every step. *)
Lemma slot_simulation key st e st' :
  tidy st -> step key st e = Some st' ->
  Modal.step key (slot st) (slot_event e) = Some (slot st').
Proof.
  intros Htidy Hstep. pose proof Htidy as [Hown _].
  destruct (delivered _ _ _ _ Hstep)
    as [(t & v & -> & Hnow & ->)
       |[(h & t & due & url & -> & Hh & Hdue & ->)|(i & r & -> & Hi & ->)]];
    cbn [slot_event].
  - rewrite ModalFacts.step_change by exact Hnow. f_equal.
    unfold Modal.onChange, onChange, slot. cbn [Modal.fields].
    destruct (JS.eqb v (Modal.youtubeUrl (fields st))); [reflexivity|].
    unfold effect, cleanup, with_fields, clearTimeout, setTimeout,
      Modal.effect, Modal.cleanup.
    cbn [fields timers nextTimer handler inflight issued now Modal.fields
         Modal.timer Modal.inflight Modal.issued Modal.now].
    now rewrite lookup_insert_eq.
  - pose proof Hstep as Hstep'. cbn [step] in Hstep'. rewrite Hh in Hstep'.
    assert (Hnow : now st <= t).
    { destruct (due <=? t); [|discriminate].
      destruct (now st <=? t) eqn:E; [|discriminate]. now apply Nat.leb_le. }
    assert (h = handler st) as -> by exact (Hown h _ Hh).
    rewrite (ModalFacts.step_fire key (slot st) t due url);
      [|exact Hh|exact Hdue|exact Hnow].
    f_equal. unfold Modal.onTimer, onTimer, slot. cbv zeta.
    cbn [fields timers nextTimer handler inflight issued now Modal.fields
         Modal.timer Modal.inflight Modal.issued Modal.now].
    destruct (truthy (getYoutubeVideoId url)); [destruct (truthy key)|];
      cbn [fields timers nextTimer handler inflight issued now];
      now rewrite lookup_delete_eq.
  - rewrite ModalFacts.step_settle by exact Hi. reflexivity.
Qed.

End TimersFacts.

(** C9.  In every state the mounted dialog can reach, a burst of edits, each
    altering the input and each less than 500ms after the previous one,
    issues at most one title fetch, whatever else the browser delivers
    meanwhile and afterwards: each edit's cleanup clears the timer of the
    edit before, so only the last edit's timer is left to run; the fetch, if
    any, is for the identifier extracted from the final value. *)
Theorem burst_issues_one_fetch
    (key : jsstring) (tr0 : list Timers.event) (st st' : Timers.state)
    (t1 : nat) (v1 : jsstring) (tr : list Timers.event) :
  Timers.run key Timers.mounted tr0 = Some st ->
  v1 <> Modal.youtubeUrl (Timers.fields st) ->
  Timers.rapid t1 v1 tr ->
  Timers.run key st (Timers.Change t1 v1 :: tr) = Some st' ->
  Timers.issued st' = Timers.issued st \/
  Timers.issued st' =
    Timers.issued st ++ [getYoutubeVideoId (Timers.last_value v1 tr)].
Proof.
  intros Hreach Hne Hrapid Hrun.
  pose proof (TimersFacts.reachable_tidy key tr0 _ _
                TimersFacts.mounted_tidy Hreach) as Htidy.
  cbn [Timers.run] in Hrun.
  destruct (Timers.step key st (Timers.Change t1 v1)) as [st1|] eqn:Hstep;
    [|discriminate].
  cbn [Timers.step] in Hstep.
  destruct (Timers.now st <=? t1); [|discriminate].
  injection Hstep as <-.
  apply (TimersFacts.phase_run key (Timers.issued st) tr t1 v1
           (Timers.onChange t1 v1 st) st'); [|exact Hrapid|exact Hrun].
  destruct (TimersFacts.edit_rearms t1 v1 st Hne)
    as (Ht & Hh & _ & Hu & Hi & _).
  apply Timers.Armed; [|exact Hu|exact Hi].
  rewrite Ht, Hh, (TimersFacts.tidy_cleared st Htidy). apply insert_empty.
Qed.

Lemma burst_issues_one_fetch_witness :
  let st' :=
    default Timers.mounted
      (Timers.run sample_key Timers.mounted
         (Timers.Change 100 (js "https://youtu.be/dQw4w9WgXc") :: timed_burst))
  in
  Timers.issued st' = Timers.issued Timers.mounted \/
  Timers.issued st' =
    Timers.issued Timers.mounted ++
    [getYoutubeVideoId
       (Timers.last_value (js "https://youtu.be/dQw4w9WgXc") timed_burst)].
Proof.
  apply (burst_issues_one_fetch sample_key [] Timers.mounted
           (default Timers.mounted
              (Timers.run sample_key Timers.mounted
                 (Timers.Change 100 (js "https://youtu.be/dQw4w9WgXc")
                  :: timed_burst)))
           100 (js "https://youtu.be/dQw4w9WgXc") timed_burst).
  - reflexivity.
  - discriminate.
  - cbn. repeat split; [lia | discriminate].
  - vm_compute. reflexivity.
Defined.

(** The burst of the example issues its one request, for the final value,
    and the timer of the first edit, cleared by the second, cannot run. *)
Example timed_burst_issues_one :
  option_map Timers.issued
    (Timers.run sample_key Timers.mounted
       (Timers.Change 100 (js "https://youtu.be/dQw4w9WgXc") :: timed_burst))
  = Some [js "dQw4w9WgXcQ"] /\
  Timers.run sample_key Timers.mounted
    [ Timers.Change 100 (js "https://youtu.be/dQw4w9WgXc");
      Timers.Change 200 (js "https://youtu.be/dQw4w9WgXcQ");
      Timers.Fire 1 700 ] = None.
Proof. vm_compute. split; reflexivity. Qed.




(** The superseded link of the example is never fetched: one request, for
    the link typed last. *)
Example superseded_link_not_fetched :
  option_map Timers.issued
    (Timers.run sample_key Timers.mounted
       (Timers.Change 100 (js "https://youtu.be/aaaaaaaaaaa") :: timed_burst))
  = Some [js "dQw4w9WgXcQ"].
Proof. vm_compute. reflexivity. Qed.

(** The burst of the example does issue its one request, for the final
    value. *)
Example sample_burst_issues_one :
  option_map Modal.issued
    (Modal.run sample_key Modal.mounted
       (Modal.Change 100 (js "https://youtu.be/dQw4w9WgXc") :: sample_burst))
  = Some [js "dQw4w9WgXcQ"].
Proof. vm_compute. reflexivity. Qed.

(** C6.  When the timer runs on a value with an extractable identifier, the
    validity flag becomes true whatever happens to the title.  Without an API
    key no request is made and the title is the 'API Key missing'
    placeholder.  With a key one request is made; the title is then
    [items[0].snippet.title] if the answer has a first item, the 'not found
    or private' placeholder if it has none, and the 'Error fetching title'
    placeholder if the call fails; settling leaves validity true. *)
Theorem title_resolution_four_ways
    (key : jsstring) (st : Modal.state) (due t : nat) (url : jsstring) :
  Modal.timer st = Some (due, url) -> due <= t -> Modal.now st <= t ->
  getYoutubeVideoId url <> [] ->
  exists st1,
    Modal.step key st (Modal.Fire t) = Some st1 /\
    Modal.isValidUrl (Modal.fields st1) = true /\
    (key = [] ->
     Modal.videoTitle (Modal.fields st1) = js "Untitled Recipe (API Key missing)" /\
     Modal.issued st1 = Modal.issued st /\
     Modal.inflight st1 = Modal.inflight st) /\
    (key <> [] ->
     let i := length (Modal.issued st) in
     Modal.issued st1 = Modal.issued st ++ [getYoutubeVideoId url] /\
     (forall title rest,
        Modal.settled_view key st1 i
          (Modal.Json (Some (Some title :: rest))) = Some (title, true)) /\
     Modal.settled_view key st1 i (Modal.Json (Some []))
       = Some (js "Untitled Recipe (Video not found or private)", true) /\
     Modal.settled_view key st1 i Modal.Failed
       = Some (js "Untitled Recipe (Error fetching title)", true)).
Proof.
  intros Htimer Hdue Hnow Hid.
  exists (Modal.onTimer key t url st).
  split; [now apply (ModalFacts.step_fire key st t due url)|].
  unfold Modal.onTimer. cbv zeta.
  destruct (getYoutubeVideoId url) as [|x vid] eqn:E; [contradiction|].
  cbn [truthy]. destruct key as [|k key].
  - cbn -[js]. split; [reflexivity|]. split; [auto|]. intros H. contradiction.
  - cbn [truthy]. split; [reflexivity|]. split; [discriminate|].
    intros _. cbv zeta. split; [reflexivity|].
    unfold Modal.settled_view.
    assert (Hin : length (Modal.issued st)
                  ∈ ({[length (Modal.issued st)]} ∪ Modal.inflight st))
      by set_solver.
    repeat split; intros;
      (rewrite ModalFacts.step_settle by exact Hin); reflexivity.
Qed.

Lemma title_resolution_four_ways_witness :
  exists st1,
    Modal.step sample_key
      (Modal.onChange 0 (js "https://youtu.be/dQw4w9WgXcQ") Modal.mounted)
      (Modal.Fire 500) = Some st1 /\
    Modal.isValidUrl (Modal.fields st1) = true /\
    Modal.settled_view sample_key st1 0
      (Modal.Json (Some [Some (js "Never Gonna Give You Up")]))
    = Some (js "Never Gonna Give You Up", true).
Proof.
  destruct (title_resolution_four_ways sample_key
              (Modal.onChange 0 (js "https://youtu.be/dQw4w9WgXcQ")
                 Modal.mounted)
              500 500 (js "https://youtu.be/dQw4w9WgXcQ"))
    as (st1 & Hstep & Hvalid & _ & Hkey).
  - reflexivity.
  - lia.
  - vm_compute. lia.
  - vm_compute. discriminate.
  - exists st1. split; [exact Hstep|]. split; [exact Hvalid|].
    destruct Hkey as (_ & Htitle & _); [discriminate|].
    apply Htitle.
Defined.

(** C2, as stated, fails: after a link has been resolved, changing the input
    to a string without an identifier leaves the old thumbnail and the
    validity flag in place and turns the loading flags on; only the title is
    cleared at that moment. *)
Lemma invalid_edit_keeps_thumbnail :
  option_map Modal.derived
    (Modal.run [] Modal.mounted
       [ Modal.Change 0 (js "https://youtu.be/dQw4w9WgXcQ");
         Modal.Fire 500;
         Modal.Change 600 (js "not a url") ])
  = Some (js "https://img.youtube.com/vi/dQw4w9WgXcQ/hqdefault.jpg",
          [], true, true, true).
Proof. vm_compute. reflexivity. Qed.

(** C2, amended.  When the input changes to the empty string or to a string
    without an extractable identifier, only the title is cleared at the
    moment of the change: the loading flags become true for a non-empty
    input and false for the empty one, the thumbnail URL and the validity
    flag keep their values.  The reset of all derived fields to empty/false
    is debounced like the successful path: the timer cannot run before 500ms
    have passed, and when it runs it resets them, without any fetch. *)
Theorem invalid_input_reset_is_debounced
    (key : jsstring) (st : Modal.state) (t : nat) (v : jsstring) :
  Modal.now st <= t ->
  v <> Modal.youtubeUrl (Modal.fields st) ->
  getYoutubeVideoId v = [] ->
  exists st1,
    Modal.step key st (Modal.Change t v) = Some st1 /\
    Modal.derived st1 =
      (Modal.thumbnailUrl (Modal.fields st), [],
       Modal.isValidUrl (Modal.fields st), truthy v, truthy v) /\
    (forall t', t' < t + 500 -> Modal.step key st1 (Modal.Fire t') = None) /\
    (forall t', t + 500 <= t' ->
       exists st2,
         Modal.step key st1 (Modal.Fire t') = Some st2 /\
         Modal.derived st2 = ([], [], false, false, false) /\
         Modal.issued st2 = Modal.issued st).
Proof.
  intros Hnow Hne Hid. exists (Modal.onChange t v st).
  split; [now apply ModalFacts.step_change|].
  rewrite ModalFacts.onChange_new by exact Hne.
  split; [|split].
  - unfold Modal.derived. now destruct (truthy v).
  - intros t' Ht'.
    eapply ModalFacts.step_fire_early; [reflexivity|exact Ht'].
  - intros t' Ht'. eexists. split.
    + eapply ModalFacts.step_fire; [reflexivity|exact Ht'|].
      cbn [Modal.now]. unfold Modal.debounce in *. lia.
    + unfold Modal.onTimer. rewrite Hid. cbn -[js]. auto.
Qed.

Lemma invalid_input_reset_is_debounced_witness :
  exists st1,
    Modal.step [] (Modal.onTimer [] 500 (js "https://youtu.be/dQw4w9WgXcQ")
                     (Modal.onChange 0 (js "https://youtu.be/dQw4w9WgXcQ")
                        Modal.mounted))
      (Modal.Change 600 (js "not a url")) = Some st1 /\
    Modal.derived st1 =
      (js "https://img.youtube.com/vi/dQw4w9WgXcQ/hqdefault.jpg", [], true,
       true, true) /\
    Modal.step [] st1 (Modal.Fire 1099) = None /\
    exists st2,
      Modal.step [] st1 (Modal.Fire 1100) = Some st2 /\
      Modal.derived st2 = ([], [], false, false, false).
Proof.
  destruct (invalid_input_reset_is_debounced []
              (Modal.onTimer [] 500 (js "https://youtu.be/dQw4w9WgXcQ")
                 (Modal.onChange 0 (js "https://youtu.be/dQw4w9WgXcQ")
                    Modal.mounted))
              600 (js "not a url"))
    as (st1 & Hstep & Hnow & Hearly & Hlate).
  - vm_compute. lia.
  - vm_compute. discriminate.
  - vm_compute. reflexivity.
  - exists st1. split; [exact Hstep|]. split; [exact Hnow|].
    split; [apply Hearly; lia|].
    destruct (Hlate 1100) as (st2 & Hfire & Hreset & _); [lia|].
    exists st2. split; assumption.
Defined.

(** ** More on the resolver: the link shapes it accepts and rejects *)
Module ResolverShapes.
Import RegexFacts Link ResolverFacts LinkShape.

Lemma forallb_split (p : N -> bool) a b :
  forallb p (a ++ b) = true -> forallb p a = true /\ forallb p b = true.
Proof. rewrite forallb_app. apply andb_true_iff. Qed.

Lemma forallb_join (p : N -> bool) a b :
  forallb p a = true -> forallb p b = true -> forallb p (a ++ b) = true.
Proof. intros Ha Hb. rewrite forallb_app. now rewrite Ha, Hb. Qed.

(** A literal that holds a character of which the input has none fails. *)
Lemma lit_needs (p : N -> bool) l s c k :
  forallb p s = true -> forallb p l = false -> rmatch (Lit l) s c k = None.
Proof.
  intros Hs Hl. destruct (rmatch (Lit l) s c k) eqn:F; [|reflexivity].
  apply lit_inv in F as (s' & -> & _).
  apply forallb_split in Hs as [Hs _]. congruence.
Qed.

Lemma exec_youtube_needs (p : N -> bool) s :
  forallb p s = true ->
  forallb p (js "youtube.com/") = false -> forallb p (js "youtu.be/") = false ->
  exec youtubeRegex s = None.
Proof.
  intros Hs H1 H2. rewrite youtubeRegex_parts. unfold exec.
  rewrite rmatch_group, rmatch_seq. unfold host_prefix.
  rewrite rmatch_alt, rmatch_seq.
  now rewrite (lit_needs p _ s _ _ Hs H1), (lit_needs p _ s _ _ Hs H2).
Qed.

Lemma exec_shorts_needs (p : N -> bool) s :
  forallb p s = true ->
  forallb p (js "youtube.com/shorts/") = false ->
  exec shortsRegex s = None.
Proof.
  intros Hs H1. unfold exec, shortsRegex.
  rewrite rmatch_group, rmatch_seq.
  now rewrite (lit_needs p _ s _ _ Hs H1).
Qed.

Lemma js_match_none r (p : N -> bool) :
  (forall s, forallb p s = true -> exec r s = None) ->
  forall s, forallb p s = true -> js_match r s = None.
Proof.
  intros Hexec. induction s as [|a s IH]; intros Hs.
  - cbn [js_match]. now rewrite (Hexec [] Hs).
  - cbn [js_match]. rewrite (Hexec _ Hs).
    cbn [forallb] in Hs. apply andb_true_iff in Hs as [_ Hs]. now apply IH.
Qed.

Lemma js_match_youtube_no_slash s :
  forallb not_slash s = true -> js_match youtubeRegex s = None.
Proof.
  apply js_match_none. intros u Hu.
  now apply (exec_youtube_needs not_slash).
Qed.

(** **** Links on the short host and embed links *)

Lemma exec_short_host_tail t tail :
  is_token t ->
  exists whole,
    exec youtubeRegex (js "youtu.be/" ++ t ++ tail) = Some (found whole t).
Proof.
  intros Ht. rewrite youtubeRegex_parts. unfold exec.
  rewrite rmatch_group, rmatch_seq. unfold host_prefix.
  rewrite rmatch_alt, rmatch_seq.
  destruct (rmatch (Lit (js "youtube.com/")) _ _ _) eqn:F.
  - apply lit_inv in F as (s2 & F & _). discriminate F.
  - rewrite lit_run, token_run by exact Ht. eexists. reflexivity.
Qed.

Lemma slash_count_none s :
  forallb not_slash s = true -> count_occ N.eq_dec s 47%N = 0.
Proof. apply no_slash_count. Qed.

Lemma segment_path_few_slashes s c k :
  count_occ N.eq_dec s 47%N <= 1 -> rmatch segment_path s c k = None.
Proof.
  intros H. destruct (rmatch segment_path s c k) eqn:F; [|reflexivity].
  apply segment_path_two_slashes in F as (p1 & p2 & rest & ->).
  rewrite !count_occ_app, !count_occ_cons_eq in H by reflexivity.
  rewrite !count_occ_app, !count_occ_cons_eq in H by reflexivity. lia.
Qed.

Lemma embed_path_run head s c k :
  In head embed_heads -> rmatch embed_path (head ++ s) c k = k s c.
Proof.
  intros [<-|[<-|[<-|[]]]]; unfold embed_path; cbn;
    destruct (k s c); reflexivity.
Qed.

Lemma embed_head_one_slash head :
  In head embed_heads -> count_occ N.eq_dec head 47%N = 1.
Proof. intros [<-|[<-|[<-|[]]]]; reflexivity. Qed.

Lemma exec_embed head t tail :
  In head embed_heads -> is_token t -> forallb not_slash tail = true ->
  exists whole,
    exec youtubeRegex (js "youtube.com/" ++ head ++ t ++ tail)
    = Some (found whole t).
Proof.
  intros Hhead Ht Htail. rewrite youtubeRegex_parts. unfold exec.
  rewrite rmatch_group, rmatch_seq. unfold host_prefix.
  rewrite rmatch_alt, rmatch_seq, lit_run, rmatch_alt.
  rewrite segment_path_few_slashes.
  2:{ rewrite !count_occ_app, (embed_head_one_slash head Hhead).
      rewrite (slash_count_none t (token_no_slash t Ht)).
      rewrite (slash_count_none tail Htail). lia. }
  rewrite rmatch_alt, (embed_path_run head _ _ _ Hhead).
  rewrite token_run by exact Ht. eexists. reflexivity.
Qed.

(** **** Links that carry the identifier in a [v] parameter *)

Lemma lit_v_fails z c k :
  starts_with_v z = false -> rmatch (Lit (js "v=")) z c k = None.
Proof.
  change (js "v=") with [118%N; 61%N]. unfold starts_with_v.
  destruct z as [|a [|b z]]; cbn [rmatch Lit]; intros H; try reflexivity.
  - now destruct (N.eqb a 118).
  - destruct (N.eqb a 118); [|reflexivity].
    cbn [andb] in H. now rewrite H.
Qed.

Lemma v_param_free_split : forall p y z,
  v_param_free (p ++ y :: z) = true -> query_sep y = true ->
  starts_with_v z = false.
Proof.
  induction p as [|a p IH]; intros y z H Hy; cbn [app v_param_free] in H;
    apply andb_true_iff in H as [H1 H2].
  - rewrite Hy in H1. cbn [andb] in H1. now apply negb_true_iff in H1.
  - now apply (IH y z).
Qed.

Lemma v_param_free_app : forall a b,
  forallb not_sep a = true -> v_param_free b = true ->
  v_param_free (a ++ b) = true.
Proof.
  induction a as [|y a IH]; intros b Ha Hb; [exact Hb|].
  cbn [forallb] in Ha. apply andb_true_iff in Ha as [Hy Ha].
  cbn [app v_param_free]. unfold not_sep in Hy. apply negb_true_iff in Hy.
  rewrite Hy. cbn [andb negb]. now apply IH.
Qed.

Lemma sep_scan_fails s k :
  v_param_free s = true ->
  forall pre s' c', s = pre ++ s' ->
    rmatch (Seq (Cls query_sep) (Lit (js "v="))) s' c' k = None.
Proof.
  intros Hs pre s' c' ->. rewrite rmatch_seq.
  destruct s' as [|y z]; [reflexivity|]. cbn [rmatch].
  destruct (query_sep y) eqn:Hy; [|reflexivity].
  apply lit_v_fails. exact (v_param_free_split pre y z Hs Hy).
Qed.

Lemma query_path_needs_param s c k :
  v_param_free s = true -> rmatch query_path s c k = None.
Proof.
  intros Hs. unfold query_path. rewrite rmatch_seq.
  apply rmatch_none. intros pre s' c'. now apply sep_scan_fails.
Qed.

Lemma query_sep_cases sep :
  query_sep sep = true -> sep = 63%N \/ sep = 38%N.
Proof.
  unfold query_sep. intros H. apply orb_true_iff in H as [H|H];
    apply N.eqb_eq in H; auto.
Qed.

Lemma token_not_sep t : is_token t -> forallb not_sep t = true.
Proof.
  intros [_ Hp]. eapply forallb_weaken; [|exact Hp].
  intros a Ha. unfold not_sep. now rewrite (id_char_query_sep a Ha).
Qed.

(** [.*[?&]v=] stops at the last [?v=] or [&v=]. *)
Lemma query_path_last mid sep rest c k x :
  forallb dot mid = true -> query_sep sep = true ->
  v_param_free (js "v=" ++ rest) = true -> k rest c = Some x ->
  rmatch query_path (mid ++ sep :: js "v=" ++ rest) c k = Some x.
Proof.
  intros Hmid Hsep Hfree Hk. unfold query_path. rewrite rmatch_seq.
  apply star_cls_through; [assumption|].
  rewrite star_cls_cons.
  assert (Hdot : dot sep = true)
    by (destruct (query_sep_cases sep Hsep) as [-> | ->]; reflexivity).
  rewrite Hdot, rmatch_none by (intros p1 s1 c1; now apply sep_scan_fails).
  rewrite rmatch_seq. cbn [rmatch]. now rewrite Hsep, lit_run.
Qed.

Lemma embed_path_needs_slash s c k :
  forallb not_slash s = true -> rmatch embed_path s c k = None.
Proof.
  intros Hs. unfold embed_path. rewrite rmatch_seq.
  apply rmatch_none. intros pre s' c' E.
  destruct s' as [|y s']; [reflexivity|]. cbn [rmatch].
  pose proof (forallb_suffix_head _ _ _ _ _ Hs E) as Hy.
  unfold not_slash in Hy. apply negb_true_iff in Hy. now rewrite Hy.
Qed.

Lemma query_link_run pre mid sep t tail :
  forallb not_y pre = true ->
  forallb dot mid = true -> forallb not_slash mid = true ->
  query_sep sep = true -> is_token t ->
  forallb not_slash tail = true -> v_param_free tail = true ->
  getYoutubeVideoId (pre ++ js "youtube.com/" ++ mid ++ sep :: js "v=" ++ t ++ tail)
  = t.
Proof.
  intros Hpre Hdot Hmid Hsep Ht Htail Hfree.
  assert (Hns : forallb not_slash (mid ++ sep :: js "v=" ++ t ++ tail) = true).
  { apply forallb_join; [exact Hmid|]. cbn [forallb].
    apply andb_true_iff. split.
    - destruct (query_sep_cases sep Hsep) as [-> | ->]; reflexivity.
    - apply forallb_join; [reflexivity|].
      apply forallb_join; [now apply token_no_slash|exact Htail]. }
  assert (Hvf : v_param_free (js "v=" ++ t ++ tail) = true).
  { rewrite app_assoc. apply v_param_free_app; [|exact Hfree].
    apply forallb_join; [reflexivity|now apply token_not_sep]. }
  assert (Hexec : exists whole,
    exec youtubeRegex (js "youtube.com/" ++ mid ++ sep :: js "v=" ++ t ++ tail)
    = Some (found whole t)).
  { rewrite youtubeRegex_parts. unfold exec.
    rewrite rmatch_group, rmatch_seq. unfold host_prefix.
    rewrite rmatch_alt, rmatch_seq, lit_run, rmatch_alt.
    rewrite segment_path_few_slashes
      by (rewrite (slash_count_none _ Hns); lia).
    rewrite rmatch_alt, embed_path_needs_slash by exact Hns.
    eexists. erewrite query_path_last;
      [reflexivity|exact Hdot|exact Hsep|exact Hvf|].
    rewrite token_run by exact Ht. reflexivity. }
  destruct Hexec as (whole & Hexec).
  apply (getYoutubeVideoId_found whole t); [exact Ht|].
  rewrite js_match_skip_prefix by exact Hpre.
  now apply js_match_here.
Qed.

(** **** Short-form links with something after the identifier *)

Lemma js_match_youtube_shorts_tail pre t tail :
  forallb not_y pre = true -> is_token t ->
  forallb not_slash tail = true -> v_param_free tail = true ->
  js_match youtubeRegex (pre ++ js "youtube.com/shorts/" ++ t ++ tail) = None.
Proof.
  intros Hpre Ht Htail Hfree. rewrite js_match_skip_prefix by exact Hpre.
  change (js "youtube.com/shorts/" ++ t ++ tail)
    with (121%N :: (js "outube.com/shorts/" ++ t ++ tail)).
  rewrite js_match_skip.
  - rewrite js_match_skip_prefix by reflexivity.
    apply js_match_youtube_no_slash.
    apply forallb_join; [now apply token_no_slash|exact Htail].
  - change (121%N :: (js "outube.com/shorts/" ++ t ++ tail))
      with (js "youtube.com/" ++ js "shorts/" ++ t ++ tail).
    rewrite youtubeRegex_parts. unfold exec.
    rewrite rmatch_group, rmatch_seq. unfold host_prefix.
    rewrite rmatch_alt, rmatch_seq, lit_run, rmatch_alt.
    rewrite segment_path_few_slashes.
    2:{ rewrite !count_occ_app.
        rewrite (slash_count_none t (token_no_slash t Ht)).
        rewrite (slash_count_none tail Htail).
        change (count_occ N.eq_dec (js "shorts/") 47%N) with 1. lia. }
    rewrite rmatch_alt.
    change (js "shorts/" ++ t ++ tail)
      with (115%N :: (js "horts/" ++ t ++ tail)) at 1.
    rewrite embed_path_first by reflexivity.
    rewrite query_path_needs_param.
    2:{ change (115%N :: (js "horts/" ++ t ++ tail))
          with (js "shorts/" ++ t ++ tail).
        rewrite app_assoc. apply v_param_free_app; [|exact Hfree].
        apply forallb_join; [reflexivity|now apply token_not_sep]. }
    destruct (rmatch (Lit (js "youtu.be/")) _ _ _) eqn:G; [|reflexivity].
    apply lit_inv in G as (s2 & G & _). discriminate G.
Qed.

Lemma shorts_match_tail pre t tail :
  forallb not_y pre = true -> is_token t ->
  group (js_match shortsRegex (pre ++ js "youtube.com/shorts/" ++ t ++ tail)) 1
  = Some t.
Proof.
  intros Hpre Ht. unfold shortsRegex.
  induction pre as [|a pre IH].
  - cbn [app].
    assert (Hexec : exists whole,
      exec (Seq (Lit (js "youtube.com/shorts/")) token)
        (js "youtube.com/shorts/" ++ t ++ tail) = Some (found whole t)).
    { unfold exec. rewrite rmatch_group, rmatch_seq, lit_run.
      rewrite token_run by exact Ht. eexists. reflexivity. }
    destruct Hexec as (whole & Hexec).
    rewrite (js_match_here _ _ _ Hexec). now apply found_group.
  - cbn [forallb] in Hpre. apply andb_true_iff in Hpre as [Ha Hpre].
    rewrite <- app_comm_cons. cbn [js_match].
    destruct (exec _ (a :: pre ++ _)) eqn:F; [|now apply IH].
    exfalso. unfold exec in F. rewrite rmatch_group, rmatch_seq in F.
    apply lit_inv in F as (s2 & F & _). injection F as -> _.
    discriminate Ha.
Qed.

Lemma shorts_link_run pre t tail :
  forallb not_y pre = true -> is_token t ->
  forallb not_slash tail = true -> v_param_free tail = true ->
  getYoutubeVideoId (pre ++ js "youtube.com/shorts/" ++ t ++ tail) = t.
Proof.
  intros Hpre Ht Htail Hfree. unfold getYoutubeVideoId. cbv zeta.
  rewrite (js_match_youtube_shorts_tail pre t tail Hpre Ht Htail Hfree).
  cbn [group]. now rewrite (shorts_match_tail pre t tail Hpre Ht).
Qed.

End ResolverShapes.

(** X1.  An input without a slash, or without the letter y, has no video
    identifier: getYoutubeVideoId returns the empty string. *)
Theorem no_slash_or_no_y_gives_empty (url : jsstring) :
  forallb Link.not_slash url = true \/ forallb Link.not_y url = true ->
  getYoutubeVideoId url = [].
Proof.
  intros [H|H]; unfold getYoutubeVideoId; cbv zeta.
  - rewrite (ResolverShapes.js_match_youtube_no_slash url H).
    rewrite (ResolverShapes.js_match_none shortsRegex Link.not_slash); auto.
    intros u Hu. now apply (ResolverShapes.exec_shorts_needs Link.not_slash).
  - rewrite (ResolverShapes.js_match_none youtubeRegex Link.not_y); auto.
    + rewrite (ResolverShapes.js_match_none shortsRegex Link.not_y); auto.
      intros u Hu. now apply (ResolverShapes.exec_shorts_needs Link.not_y).
    + intros u Hu. now apply (ResolverShapes.exec_youtube_needs Link.not_y).
Qed.

Lemma no_slash_or_no_y_gives_empty_witness :
  getYoutubeVideoId (js "not a url") = [].
Proof.
  apply (no_slash_or_no_y_gives_empty (js "not a url")).
  left. reflexivity.
Defined.

(** X2.  A link on the short host resolves to the eleven identifier
    characters that follow [youtu.be/], whatever comes after them: a longer
    run of identifier characters is cut after the eleventh. *)
Theorem short_host_link_any_tail (pre t tail : jsstring) :
  forallb Link.not_y pre = true -> Link.is_token t ->
  getYoutubeVideoId (pre ++ js "youtu.be/" ++ t ++ tail) = t.
Proof.
  intros Hpre Ht.
  destruct (ResolverShapes.exec_short_host_tail t tail Ht) as (whole & H).
  apply (ResolverFacts.getYoutubeVideoId_found whole t); [exact Ht|].
  rewrite ResolverFacts.js_match_skip_prefix by exact Hpre.
  now apply RegexFacts.js_match_here.
Qed.

Lemma short_host_link_any_tail_witness :
  getYoutubeVideoId
    (js "https://" ++ js "youtu.be/" ++ js "dQw4w9WgXcQ" ++ js "ZZZ?t=42")
  = js "dQw4w9WgXcQ".
Proof.
  apply (short_host_link_any_tail (js "https://") (js "dQw4w9WgXcQ")
           (js "ZZZ?t=42")).
  - reflexivity.
  - split; reflexivity.
Defined.

(** X3.  The embed shapes [youtube.com/embed/<t>], [youtube.com/v/<t>] and
    [youtube.com/e/<t>] resolve to [t] when nothing with a slash follows. *)
Theorem embed_link (pre head t tail : jsstring) :
  forallb Link.not_y pre = true ->
  In head [js "embed/"; js "v/"; js "e/"] ->
  Link.is_token t ->
  forallb Link.not_slash tail = true ->
  getYoutubeVideoId (pre ++ js "youtube.com/" ++ head ++ t ++ tail) = t.
Proof.
  intros Hpre Hhead Ht Htail.
  destruct (ResolverShapes.exec_embed head t tail Hhead Ht Htail)
    as (whole & H).
  apply (ResolverFacts.getYoutubeVideoId_found whole t); [exact Ht|].
  rewrite ResolverFacts.js_match_skip_prefix by exact Hpre.
  now apply RegexFacts.js_match_here.
Qed.

Lemma embed_link_witness :
  getYoutubeVideoId
    (js "https://www." ++ js "youtube.com/" ++ js "embed/" ++ js "dQw4w9WgXcQ"
     ++ js "?autoplay=1")
  = js "dQw4w9WgXcQ".
Proof.
  apply (embed_link (js "https://www.") (js "embed/") (js "dQw4w9WgXcQ")
           (js "?autoplay=1")).
  - reflexivity.
  - left. reflexivity.
  - split; reflexivity.
  - reflexivity.
Defined.

(** X4.  A link [youtube.com/<path>?...v=<t>...] resolves to [t] when the
    text before the parameter has no line break, nothing in the link has a
    further slash and no further [?v=] or [&v=] follows. *)
Theorem query_link (pre mid t tail : jsstring) (sep : N) :
  forallb Link.not_y pre = true ->
  forallb dot mid = true -> forallb Link.not_slash mid = true ->
  query_sep sep = true -> Link.is_token t ->
  forallb Link.not_slash tail = true -> LinkShape.v_param_free tail = true ->
  getYoutubeVideoId
    (pre ++ js "youtube.com/" ++ mid ++ sep :: js "v=" ++ t ++ tail) = t.
Proof.
  intros Hpre Hdot Hmid Hsep Ht Htail Hfree.
  now apply ResolverShapes.query_link_run.
Qed.

Lemma query_link_witness :
  getYoutubeVideoId
    (js "https://www." ++ js "youtube.com/" ++ js "watch?feature=share"
     ++ 38%N :: js "v=" ++ js "dQw4w9WgXcQ" ++ js "&t=42s")
  = js "dQw4w9WgXcQ".
Proof.
  apply (query_link (js "https://www.") (js "watch?feature=share")
           (js "dQw4w9WgXcQ") (js "&t=42s") 38%N);
    try reflexivity.
  split; reflexivity.
Defined.

(** X5.  When a watch link carries two [v] parameters, the last one is the
    identifier extracted. *)
Theorem last_v_parameter_wins (pre t1 t2 : jsstring) :
  forallb Link.not_y pre = true -> Link.is_token t1 -> Link.is_token t2 ->
  getYoutubeVideoId
    (pre ++ js "youtube.com/watch?v=" ++ t1 ++ js "&v=" ++ t2) = t2.
Proof.
  intros Hpre Ht1 Ht2.
  replace (pre ++ js "youtube.com/watch?v=" ++ t1 ++ js "&v=" ++ t2)
    with (pre ++ js "youtube.com/" ++ (js "watch?v=" ++ t1)
          ++ 38%N :: js "v=" ++ t2 ++ []).
  2:{ rewrite app_nil_r, <- (app_assoc (js "watch?v=") t1). reflexivity. }
  apply ResolverShapes.query_link_run; try assumption; try reflexivity.
  - apply ResolverShapes.forallb_join; [reflexivity|].
    destruct Ht1 as [_ Hp]. eapply ResolverFacts.forallb_weaken; [|exact Hp].
    intros a Ha. unfold dot.
    rewrite (ResolverFacts.id_char_ne a 10 eq_refl Ha).
    rewrite (ResolverFacts.id_char_ne a 13 eq_refl Ha).
    rewrite (ResolverFacts.id_char_ne a 8232 eq_refl Ha).
    now rewrite (ResolverFacts.id_char_ne a 8233 eq_refl Ha).
  - apply ResolverShapes.forallb_join; [reflexivity|].
    now apply ResolverFacts.token_no_slash.
Qed.

Lemma last_v_parameter_wins_witness :
  getYoutubeVideoId
    (js "https://www." ++ js "youtube.com/watch?v=" ++ js "aaaaaaaaaaa"
     ++ js "&v=" ++ js "bbbbbbbbbbb") = js "bbbbbbbbbbb".
Proof.
  apply (last_v_parameter_wins (js "https://www.") (js "aaaaaaaaaaa")
           (js "bbbbbbbbbbb")); [reflexivity| |]; split; reflexivity.
Defined.

(** X6.  A short-form link resolves to its token also when a query string
    follows, as long as what follows has no slash and no [?v=] or [&v=]. *)
Theorem shorts_link_with_tail (pre t tail : jsstring) :
  forallb Link.not_y pre = true -> Link.is_token t ->
  forallb Link.not_slash tail = true -> LinkShape.v_param_free tail = true ->
  getYoutubeVideoId (pre ++ js "youtube.com/shorts/" ++ t ++ tail) = t.
Proof.
  intros Hpre Ht Htail Hfree.
  now apply ResolverShapes.shorts_link_run.
Qed.

Lemma shorts_link_with_tail_witness :
  getYoutubeVideoId
    (js "https://www." ++ js "youtube.com/shorts/" ++ js "dQw4w9WgXcQ"
     ++ js "?feature=share") = js "dQw4w9WgXcQ".
Proof.
  apply (shorts_link_with_tail (js "https://www.") (js "dQw4w9WgXcQ")
           (js "?feature=share")); try reflexivity.
  split; reflexivity.
Defined.

(** X7.  The thumbnail URL determines the identifier: two identifiers with
    the same thumbnail URL are equal, and only the empty identifier has the
    empty URL. *)
Theorem getYoutubeThumbnailUrl_injective (a b : jsstring) :
  getYoutubeThumbnailUrl a = getYoutubeThumbnailUrl b -> a = b.
Proof.
  unfold getYoutubeThumbnailUrl.
  destruct a as [|x a], b as [|y b]; cbn [truthy]; intros H.
  - reflexivity.
  - discriminate H.
  - discriminate H.
  - apply app_inv_head in H. now apply app_inv_tail in H.
Qed.

Lemma getYoutubeThumbnailUrl_injective_witness :
  getYoutubeVideoId (js "https://youtu.be/dQw4w9WgXcQ") = js "dQw4w9WgXcQ".
Proof.
  apply (getYoutubeThumbnailUrl_injective
           (getYoutubeVideoId (js "https://youtu.be/dQw4w9WgXcQ"))
           (js "dQw4w9WgXcQ")).
  vm_compute. reflexivity.
Defined.

(** ** More on the handlers *)
Module HandlerMore.
Import Firestore HandlerFacts.

Lemma backend_eta b : Backend (recipesCollection b) (groceryListDoc b) = b.
Proof. now destruct b. Qed.

Lemma Forall_take_drop {A} (P : A -> Prop) n (l : list A) :
  Forall P l -> Forall P (take n l) /\ Forall P (drop n l).
Proof.
  intros H. rewrite <- (take_drop n l) in H.
  now apply Forall_app in H.
Qed.

Lemma not_in_take_drop (id : docid) n (coll : list (docid * recipe)) :
  ~ In id (List.map fst coll) ->
  ~ In id (List.map fst (take n coll)) /\ ~ In id (List.map fst (drop n coll)).
Proof.
  intros H. rewrite <- (take_drop n coll), map_app in H.
  split; intros Hin; apply H, in_or_app; auto.
Qed.

Lemma getDocs_exists v (coll : list (docid * recipe)) d rest :
  getDocs_where_videoId v coll = d :: rest ->
  Exists (fun e => videoId (snd e) = v) coll.
Proof.
  intros H. assert (Hin : In d (getDocs_where_videoId v coll))
    by (rewrite H; now left).
  unfold getDocs_where_videoId in Hin. apply List.filter_In in Hin as [Hin Hd].
  apply List.Exists_exists. exists d. split; [exact Hin|now apply eqb_eq].
Qed.

End HandlerMore.

(** X8.  Adding a recipe and then deleting by its videoId gives back the
    collection as it was, provided the new document identifier is fresh and
    no other record carries that videoId. *)
Theorem add_then_delete_restores
    (a a' : Firestore.app) (b : Firestore.backend)
    (id : Firestore.docid) (pos : nat) (r : Firestore.recipe) :
  Firestore.isAuthReady a = true -> Firestore.isAuthReady a' = true ->
  ~ In id (List.map fst (Firestore.recipesCollection b)) ->
  Forall (fun d => Firestore.videoId (snd d) <> Firestore.videoId r)
    (Firestore.recipesCollection b) ->
  snd (Firestore.handleDeleteRecipe Firestore.Resolved Firestore.Resolved
         (Firestore.videoId r) a'
         (snd (Firestore.handleAddRecipe (Some (id, pos)) r a b)))
  = b.
Proof.
  intros Hready Hready' Hfresh Hother.
  unfold Firestore.handleAddRecipe. rewrite Hready. cbn [negb snd].
  unfold Firestore.handleDeleteRecipe. rewrite Hready'.
  cbn [negb Firestore.recipesCollection Firestore.groceryListDoc].
  unfold Firestore.addDoc.
  destruct (HandlerMore.Forall_take_drop _ pos _ Hother) as [Htake _].
  destruct (HandlerMore.not_in_take_drop id pos _ Hfresh) as [Hn1 Hn2].
  rewrite (HandlerFacts.getDocs_first _ _ (id, r) _ Htake eq_refl).
  cbn [snd fst]. unfold Firestore.deleteDoc.
  rewrite List.filter_app. cbn [List.filter fst].
  rewrite HandlerFacts.eqb_refl. cbn [negb].
  fold (Firestore.deleteDoc id (take pos (Firestore.recipesCollection b))).
  fold (Firestore.deleteDoc id (drop pos (Firestore.recipesCollection b))).
  rewrite !HandlerFacts.deleteDoc_absent by assumption.
  rewrite take_drop. apply HandlerMore.backend_eta.
Qed.

Lemma add_then_delete_restores_witness :
  snd (Firestore.handleDeleteRecipe Firestore.Resolved Firestore.Resolved
         (js "ccccccccccc") sample_app
         (snd (Firestore.handleAddRecipe (Some (js "doc0", 2))
                 (sample_recipe "https://youtu.be/ccccccccccc" "ccccccccccc")
                 sample_app sample_backend)))
  = sample_backend.
Proof.
  apply (add_then_delete_restores sample_app sample_app sample_backend
           (js "doc0") 2
           (sample_recipe "https://youtu.be/ccccccccccc" "ccccccccccc")).
  - reflexivity.
  - reflexivity.
  - cbn. intuition discriminate.
  - cbn. repeat constructor; discriminate.
Defined.

(** X9.  A delete that goes through lowers the number of records with the
    target videoId by exactly one (none when there is none) and keeps the
    records with any other videoId as they were, in the same order. *)
Theorem delete_lowers_match_count
    (v : jsstring) (a : Firestore.app) (b : Firestore.backend) :
  Firestore.isAuthReady a = true ->
  List.NoDup (List.map fst (Firestore.recipesCollection b)) ->
  let b' := snd (Firestore.handleDeleteRecipe Firestore.Resolved
                   Firestore.Resolved v a b) in
  length (Firestore.getDocs_where_videoId v (Firestore.recipesCollection b'))
  = length (Firestore.getDocs_where_videoId v (Firestore.recipesCollection b))
    - 1 /\
  List.filter (fun d => negb (JS.eqb (Firestore.videoId (snd d)) v))
    (Firestore.recipesCollection b')
  = List.filter (fun d => negb (JS.eqb (Firestore.videoId (snd d)) v))
      (Firestore.recipesCollection b).
Proof.
  intros Hready Hnd. unfold Firestore.handleDeleteRecipe. rewrite Hready.
  cbn [negb].
  destruct (Firestore.getDocs_where_videoId v (Firestore.recipesCollection b))
    as [|d0 rest] eqn:E.
  - cbn [snd]. rewrite E. split; reflexivity.
  - pose proof (HandlerMore.getDocs_exists _ _ _ _ E) as Hex.
    destruct (HandlerFacts.first_match_split _ _ Hex)
      as (before & d & after & Hcoll & Hd & Hb).
    rewrite Hcoll in E, Hnd |- *.
    rewrite (HandlerFacts.getDocs_first _ _ _ _ Hb Hd) in E.
    injection E as <- <-.
    cbn [snd Firestore.recipesCollection].
    rewrite (HandlerFacts.deleteDoc_unique _ _ _ Hnd).
    split.
    + unfold Firestore.getDocs_where_videoId. rewrite List.filter_app.
      fold (Firestore.getDocs_where_videoId v before).
      rewrite (HandlerFacts.getDocs_none _ _ Hb). cbn [app length]. lia.
    + rewrite !List.filter_app. cbn [List.filter].
      apply HandlerFacts.eqb_eq in Hd. now rewrite Hd.
Qed.

Lemma delete_lowers_match_count_witness :
  let b' := snd (Firestore.handleDeleteRecipe Firestore.Resolved
                   Firestore.Resolved (js "dQw4w9WgXcQ") sample_app
                   sample_backend) in
  length (Firestore.getDocs_where_videoId (js "dQw4w9WgXcQ")
            (Firestore.recipesCollection b'))
  = length (Firestore.getDocs_where_videoId (js "dQw4w9WgXcQ")
              (Firestore.recipesCollection sample_backend)) - 1 /\
  List.filter (fun d => negb (JS.eqb (Firestore.videoId (snd d))
                                (js "dQw4w9WgXcQ")))
    (Firestore.recipesCollection b')
  = List.filter (fun d => negb (JS.eqb (Firestore.videoId (snd d))
                                  (js "dQw4w9WgXcQ")))
      (Firestore.recipesCollection sample_backend).
Proof.
  apply (delete_lowers_match_count (js "dQw4w9WgXcQ") sample_app
           sample_backend).
  - reflexivity.
  - cbn. repeat constructor; cbn; intuition discriminate.
Defined.

(** X10.  Before the session is bootstrapped none of the three handlers
    touches the backend, whatever the backend would have answered; each shows
    its own loading message, and the grocery list stays in edit mode. *)
Theorem handlers_wait_for_bootstrap
    (a : Firestore.app) (b : Firestore.backend)
    (add_io : option (Firestore.docid * nat)) (io1 io2 : Firestore.settled)
    (r : Firestore.recipe) (v : jsstring) :
  Firestore.isAuthReady a = false ->
  Firestore.handleAddRecipe add_io r a b
  = (Firestore.showActionToast
       (js "Application is loading. Please wait for authentication.") a, b) /\
  Firestore.handleDeleteRecipe io1 io2 v a b
  = (Firestore.showActionToast (js "Application is loading. Cannot delete.") a,
     b) /\
  Firestore.handleSaveGroceryList io1 a b
  = (Firestore.showActionToast (js "Application is loading. Cannot save.") a,
     b) /\
  Firestore.isGroceryListEditing
    (fst (Firestore.handleSaveGroceryList io1 a b))
  = Firestore.isGroceryListEditing a.
Proof.
  intros H.
  unfold Firestore.handleAddRecipe, Firestore.handleDeleteRecipe,
    Firestore.handleSaveGroceryList.
  rewrite H. cbn [negb]. repeat split.
Qed.

Lemma handlers_wait_for_bootstrap_witness :
  snd (Firestore.handleDeleteRecipe Firestore.Resolved Firestore.Resolved
         (js "dQw4w9WgXcQ")
         (Firestore.App false [] false (Firestore.VStr []) false)
         sample_backend)
  = sample_backend.
Proof.
  destruct (handlers_wait_for_bootstrap
              (Firestore.App false [] false (Firestore.VStr []) false)
              sample_backend None Firestore.Resolved Firestore.Resolved
              (sample_recipe "https://youtu.be/ccccccccccc" "ccccccccccc")
              (js "dQw4w9WgXcQ") eq_refl)
    as (_ & Hdel & _).
  now rewrite Hdel.
Defined.



(** X12.  Saving the grocery list writes the [content] field only: every
    other field of the document keeps its value (a missing document is
    created with [content] alone), and the recipes are not touched. *)
Theorem grocery_save_merges
    (a : Firestore.app) (b : Firestore.backend) (field : string) :
  Firestore.isAuthReady a = true ->
  field <> "content"%string ->
  let b' := snd (Firestore.handleSaveGroceryList Firestore.Resolved a b) in
  (exists data,
     Firestore.groceryListDoc b' = Some data /\
     data !! field = default ∅ (Firestore.groceryListDoc b) !! field) /\
  Firestore.recipesCollection b' = Firestore.recipesCollection b.
Proof.
  intros Hready Hfield. unfold Firestore.handleSaveGroceryList.
  rewrite Hready. cbn [negb snd Firestore.groceryListDoc
                        Firestore.recipesCollection].
  split; [|reflexivity]. eexists. split; [reflexivity|].
  apply lookup_insert_ne. congruence.
Qed.

Lemma grocery_save_merges_witness :
  exists data,
    Firestore.groceryListDoc
      (snd (Firestore.handleSaveGroceryList Firestore.Resolved sample_app
              (Firestore.Backend []
                 (Some {[ "owner"%string := Firestore.VStr (js "ann") ]}))))
    = Some data /\
    data !! "owner"%string = Some (Firestore.VStr (js "ann")).
Proof.
  destruct (grocery_save_merges sample_app
              (Firestore.Backend []
                 (Some {[ "owner"%string := Firestore.VStr (js "ann") ]}))
              "owner"%string eq_refl)
    as ((data & Hdoc & Hfield) & _).
  - discriminate.
  - exists data. split; [exact Hdoc|]. rewrite Hfield. reflexivity.
Defined.

(** X13.  Two saves in a row leave the document that the second save alone
    would have left: the last write wins and nothing of the first text
    remains. *)
Theorem grocery_last_write_wins
    (a1 a2 : Firestore.app) (b : Firestore.backend) :
  Firestore.isAuthReady a1 = true -> Firestore.isAuthReady a2 = true ->
  snd (Firestore.handleSaveGroceryList Firestore.Resolved a2
         (snd (Firestore.handleSaveGroceryList Firestore.Resolved a1 b)))
  = snd (Firestore.handleSaveGroceryList Firestore.Resolved a2 b).
Proof.
  intros H1 H2. unfold Firestore.handleSaveGroceryList.
  rewrite H1, H2. cbn [negb snd Firestore.groceryListDoc
                         Firestore.recipesCollection].
  unfold Firestore.setDoc_merge_content. cbn [from_option id].
  now rewrite insert_insert_eq.
Qed.

Lemma grocery_last_write_wins_witness :
  snd (Firestore.handleSaveGroceryList Firestore.Resolved sample_app
         (snd (Firestore.handleSaveGroceryList Firestore.Resolved
                 (Firestore.setGroceryText (Firestore.VStr (js "tea"))
                    sample_app)
                 sample_backend)))
  = snd (Firestore.handleSaveGroceryList Firestore.Resolved sample_app
           sample_backend).
Proof.
  apply (grocery_last_write_wins
           (Firestore.setGroceryText (Firestore.VStr (js "tea")) sample_app)
           sample_app sample_backend); reflexivity.
Defined.

(** X14.  Whatever document a subscription event delivers, the grocery text
    it sets is the empty string or a truthy value: a missing document, a
    missing [content] field and a falsy [content] (null, 0, false, the empty
    string) all show as the empty text.  Nothing else of the state changes. *)
Theorem grocery_snapshot_never_falsy
    (docSnap : option (gmap string Firestore.value)) (a : Firestore.app) :
  let a' := Firestore.onGroceryListSnapshot docSnap a in
  (Firestore.groceryText a' = Firestore.VStr [] \/
   Firestore.value_truthy (Firestore.groceryText a') = true) /\
  (Firestore.groceryText a' = Firestore.VStr [] <->
   forall data v, docSnap = Some data -> data !! "content"%string = Some v ->
                  Firestore.value_truthy v = false) /\
  Firestore.isGroceryListEditing a' = Firestore.isGroceryListEditing a /\
  Firestore.toastMessage a' = Firestore.toastMessage a.
Proof.
  unfold Firestore.onGroceryListSnapshot.
  destruct docSnap as [data|]; [destruct (data !! "content"%string) as [v|] eqn:E|];
    cbn [Firestore.setGroceryText Firestore.groceryText
         Firestore.isGroceryListEditing Firestore.toastMessage].
  - destruct (Firestore.value_truthy v) eqn:Hv.
    + repeat split; auto.
      * intros -> d w [= <-] Hw. rewrite E in Hw. injection Hw as <-.
        discriminate Hv.
      * intros H. specialize (H data v eq_refl E). congruence.
    + repeat split; auto.
      intros _ d w [= <-] Hw. rewrite E in Hw. now injection Hw as <-.
  - repeat split; auto. intros _ d w [= <-] Hw. congruence.
  - repeat split; auto. intros _ d w Hd. discriminate Hd.
Qed.

(** ** Tags, submission and the home view *)
Module FormFacts.
Import Modal HandlerFacts.

Lemma tag_selected tag (sel : list jsstring) :
  existsb (JS.eqb tag) sel = true <-> In tag sel.
Proof.
  rewrite existsb_exists. split.
  - intros (x & Hin & Hx). apply eqb_eq in Hx. now subst.
  - intros Hin. exists tag. split; [exact Hin|apply eqb_refl].
Qed.

Lemma tag_unselected tag (sel : list jsstring) :
  existsb (JS.eqb tag) sel = false <-> ~ In tag sel.
Proof.
  rewrite <- tag_selected. now destruct (existsb (JS.eqb tag) sel).
Qed.

Lemma in_untagged tag x (sel : list jsstring) :
  In x (List.filter (fun t => negb (JS.eqb t tag)) sel) <-> In x sel /\ x <> tag.
Proof.
  rewrite List.filter_In, negb_true_iff. now rewrite eqb_neq.
Qed.

Lemma untag_absent tag (sel : list jsstring) :
  ~ In tag sel -> List.filter (fun t => negb (JS.eqb t tag)) sel = sel.
Proof.
  induction sel as [|x sel IH]; intros H; [reflexivity|].
  cbn [List.filter].
  assert (Hx : JS.eqb x tag = false)
    by (apply eqb_neq; intros ->; apply H; now left).
  rewrite Hx. cbn [negb]. rewrite IH; [reflexivity|].
  intros Hin. apply H. now right.
Qed.

(** One click keeps the selection duplicate-free and inside [cats]. *)
Lemma handleTagChange_keeps tag f (cats : list jsstring) :
  In tag cats ->
  List.NoDup (selectedTags f) -> List.incl (selectedTags f) cats ->
  List.NoDup (selectedTags (handleTagChange tag f)) /\
  List.incl (selectedTags (handleTagChange tag f)) cats.
Proof.
  intros Htag Hnd Hincl. unfold handleTagChange. cbv zeta.
  cbn [setSelectedTags selectedTags].
  destruct (existsb (JS.eqb tag) (selectedTags f)) eqn:E.
  - split; [now apply List.NoDup_filter|].
    intros x Hx. apply in_untagged in Hx as [Hx _]. now apply Hincl.
  - apply tag_unselected in E. split.
    + apply List.NoDup_app; [exact Hnd|repeat constructor; intros []|].
      intros x Hx [<-|[]]. contradiction.
    + intros x Hx. apply in_app_or in Hx as [Hx|[<-|[]]]; auto.
Qed.

End FormFacts.

(** X15.  Clicking a tag's checkbox flips whether that tag is selected and
    changes nothing else: every other tag stays selected or unselected, and
    the rest of the form is untouched. *)
Theorem handleTagChange_flips (tag : jsstring) (f : Modal.form) :
  let f' := Modal.handleTagChange tag f in
  (In tag (Modal.selectedTags f') <-> ~ In tag (Modal.selectedTags f)) /\
  (forall other, other <> tag ->
     (In other (Modal.selectedTags f') <-> In other (Modal.selectedTags f))) /\
  Modal.setSelectedTags [] f' = Modal.setSelectedTags [] f.
Proof.
  unfold Modal.handleTagChange. cbv zeta.
  cbn [Modal.setSelectedTags Modal.selectedTags Modal.youtubeUrl
       Modal.thumbnailUrl Modal.videoTitle Modal.isValidUrl
       Modal.isLoadingThumbnail Modal.isFetchingTitle].
  destruct (existsb (JS.eqb tag) (Modal.selectedTags f)) eqn:E.
  - apply FormFacts.tag_selected in E. split; [|split; [|reflexivity]].
    + rewrite FormFacts.in_untagged. tauto.
    + intros other Hne. rewrite FormFacts.in_untagged. tauto.
  - apply FormFacts.tag_unselected in E. split; [|split; [|reflexivity]].
    + rewrite in_app_iff. cbn [In]. tauto.
    + intros other Hne. rewrite in_app_iff. cbn [In].
      split; [intros [H|[H|[]]]; [exact H|congruence]|auto].
Qed.

(** X16.  Starting from an empty selection, any sequence of clicks on the
    category checkboxes leaves a selection without duplicates whose tags are
    all categories; it therefore never holds more than the five of them. *)
Theorem selected_tags_are_distinct_categories
    (clicks : list jsstring) (f : Modal.form) :
  Modal.selectedTags f = [] ->
  Forall (fun tag => In tag categories) clicks ->
  let sel := Modal.selectedTags (ModalView.handleTagChanges clicks f) in
  List.NoDup sel /\ List.incl sel categories /\ length sel <= 5.
Proof.
  intros Hempty Hclicks. cbv zeta.
  assert (H : List.NoDup (Modal.selectedTags f) /\
              List.incl (Modal.selectedTags f) categories).
  { rewrite Hempty. split; [constructor|intros x []]. }
  clear Hempty. revert f H. unfold ModalView.handleTagChanges.
  induction Hclicks as [|tag clicks Htag _ IH]; intros f [Hnd Hincl].
  - cbn [fold_left]. repeat split; try assumption.
    apply (List.NoDup_incl_length Hnd Hincl).
  - cbn [fold_left]. apply IH.
    now apply FormFacts.handleTagChange_keeps.
Qed.

Lemma selected_tags_are_distinct_categories_witness :
  let sel :=
    Modal.selectedTags
      (ModalView.handleTagChanges
         [js "Lunch"; js "Dinner"; js "Lunch"; js "Snacks"]
         (Modal.fields Modal.mounted)) in
  List.NoDup sel /\ List.incl sel categories /\ length sel <= 5.
Proof.
  apply (selected_tags_are_distinct_categories
           [js "Lunch"; js "Dinner"; js "Lunch"; js "Snacks"]
           (Modal.fields Modal.mounted)).
  - reflexivity.
  - repeat (apply List.Forall_cons; [cbn; auto 10|]). apply List.Forall_nil.
Defined.

(** X17.  Checking and then unchecking a tag that was not selected gives back
    the form exactly as it was. *)
Theorem handleTagChange_twice (tag : jsstring) (f : Modal.form) :
  ~ In tag (Modal.selectedTags f) ->
  Modal.handleTagChange tag (Modal.handleTagChange tag f) = f.
Proof.
  intros Hnot. unfold Modal.handleTagChange at 2. cbv zeta.
  apply FormFacts.tag_unselected in Hnot as E. rewrite E.
  unfold Modal.handleTagChange. cbv zeta.
  cbn [Modal.setSelectedTags Modal.selectedTags Modal.youtubeUrl
       Modal.thumbnailUrl Modal.videoTitle Modal.isValidUrl
       Modal.isLoadingThumbnail Modal.isFetchingTitle].
  assert (E2 : existsb (JS.eqb tag) (Modal.selectedTags f ++ [tag]) = true).
  { apply FormFacts.tag_selected, in_or_app. right. now left. }
  rewrite E2, List.filter_app, (FormFacts.untag_absent _ _ Hnot).
  cbn [List.filter]. rewrite HandlerFacts.eqb_refl. cbn [negb].
  rewrite app_nil_r. now destruct f.
Qed.

Lemma handleTagChange_twice_witness :
  Modal.handleTagChange (js "Lunch")
    (Modal.handleTagChange (js "Lunch")
       (Modal.setSelectedTags [js "Dinner"] (Modal.fields Modal.mounted)))
  = Modal.setSelectedTags [js "Dinner"] (Modal.fields Modal.mounted).
Proof.
  apply (handleTagChange_twice (js "Lunch")
           (Modal.setSelectedTags [js "Dinner"] (Modal.fields Modal.mounted))).
  cbn. intuition discriminate.
Defined.

Module SubmitFacts.
Import Link.

(** A non-empty result of the resolver is a well-formed identifier. *)
Lemma videoId_cases url :
  getYoutubeVideoId url = [] \/ is_token (getYoutubeVideoId url).
Proof.
  unfold getYoutubeVideoId. cbv zeta.
  destruct (group (js_match youtubeRegex url) 1) as [v|] eqn:E1.
  - right. exact (ResolverFacts.group_token _ _ _ E1).
  - destruct (group (js_match shortsRegex url) 1) as [v|] eqn:E2.
    + right. exact (ResolverFacts.group_token _ _ _ E2).
    + now left.
Qed.

Lemma truthy_videoId_token url :
  truthy (getYoutubeVideoId url) = true -> is_token (getYoutubeVideoId url).
Proof.
  intros H. destruct (videoId_cases url) as [E|Ht]; [|exact Ht].
  rewrite E in H. discriminate H.
Qed.

Lemma includes_nil s : Home.includes s [] = true.
Proof. destruct s; reflexivity. Qed.

Lemma filter_all {A} (p : A -> bool) (l : list A) :
  (forall x, p x = true) -> List.filter p l = l.
Proof.
  intros H. induction l as [|x l IH]; [reflexivity|].
  cbn [List.filter]. now rewrite H, IH.
Qed.

End SubmitFacts.

(** X18.  handleSubmit either submits nothing, exactly when the validity
    flag is off or the current input has no identifier, or it submits a
    record holding the current input, the identifier extracted from it (a
    well-formed one), the thumbnail of the form, a non-empty title and a
    non-empty tag list. *)
Theorem handleSubmit_record (f : Modal.form) :
  match Modal.handleSubmit f with
  | Some r =>
      Modal.isValidUrl f = true /\
      Firestore.youtubeUrl r = Modal.youtubeUrl f /\
      Firestore.videoId r = getYoutubeVideoId (Modal.youtubeUrl f) /\
      Link.is_token (Firestore.videoId r) /\
      Firestore.thumbnailUrl r = Modal.thumbnailUrl f /\
      Firestore.title r <> [] /\
      Firestore.tags r <> []
  | None =>
      Modal.isValidUrl f = false \/
      getYoutubeVideoId (Modal.youtubeUrl f) = []
  end.
Proof.
  unfold Modal.handleSubmit. cbv zeta.
  destruct (Modal.isValidUrl f) eqn:Hv; [|now left].
  destruct (truthy (getYoutubeVideoId (Modal.youtubeUrl f))) eqn:Ht.
  - cbn [andb Firestore.youtubeUrl Firestore.videoId Firestore.thumbnailUrl
         Firestore.title Firestore.tags].
    repeat split.
    + now apply SubmitFacts.truthy_videoId_token.
    + now apply SubmitFacts.truthy_videoId_token.
    + unfold or_else. destruct (Modal.videoTitle f); discriminate.
    + destruct (Modal.selectedTags f); discriminate.
  - cbn [andb]. right.
    now destruct (getYoutubeVideoId (Modal.youtubeUrl f)).
Qed.

(** X19.  With an empty search box every recipe of the subscription is
    listed, in the subscription's order (the case mapping maps the empty
    string to itself). *)
Theorem empty_search_lists_all
    (toLowerCase : jsstring -> jsstring)
    (docs : list (Firestore.docid * Firestore.recipe)) :
  toLowerCase [] = [] ->
  Home.filteredRecipes toLowerCase (Home.onRecipesSnapshot docs) [] = docs.
Proof.
  intros Hlower. unfold Home.filteredRecipes. rewrite Hlower.
  rewrite SubmitFacts.filter_all
    by (intros x; apply SubmitFacts.includes_nil).
  unfold Home.onRecipesSnapshot.
  induction docs as [|[i r] docs IH]; [reflexivity|].
  cbn [List.map fst snd]. now rewrite IH.
Qed.

Lemma empty_search_lists_all_witness :
  Home.filteredRecipes Home.ascii_lower
    (Home.onRecipesSnapshot (Firestore.recipesCollection sample_backend)) []
  = Firestore.recipesCollection sample_backend.
Proof.
  apply (empty_search_lists_all Home.ascii_lower
           (Firestore.recipesCollection sample_backend)).
  reflexivity.
Defined.

(** X20.  A recipe submitted with no tag selected, once it is stored and the
    subscription has delivered it, is listed in the section of every
    category, provided its title passes the search box. *)
Theorem untagged_recipe_in_every_section
    (toLowerCase : jsstring -> jsstring) (f : Modal.form)
    (r : Firestore.recipe) (a : Firestore.app) (b : Firestore.backend)
    (id : Firestore.docid) (pos : nat) (searchTerm category : jsstring) :
  Modal.handleSubmit f = Some r ->
  Modal.selectedTags f = [] ->
  Firestore.isAuthReady a = true ->
  Home.includes (toLowerCase (Firestore.title r)) (toLowerCase searchTerm)
  = true ->
  In category categories ->
  In (id, r)
    (Home.category_section toLowerCase
       (Home.onRecipesSnapshot
          (Firestore.recipesCollection
             (snd (Firestore.handleAddRecipe (Some (id, pos)) r a b))))
       searchTerm category).
Proof.
  intros Hsubmit Hsel Hready Hsearch Hcat.
  assert (Htags : Firestore.tags r = categories).
  { unfold Modal.handleSubmit in Hsubmit. cbv zeta in Hsubmit.
    destruct (_ && _)%bool; [|discriminate].
    injection Hsubmit as <-. cbn [Firestore.tags]. now rewrite Hsel. }
  unfold Home.category_section, Home.filteredRecipes.
  apply List.filter_In. split.
  - apply List.filter_In. split; [|exact Hsearch].
    unfold Home.onRecipesSnapshot. apply in_map_iff.
    exists (id, r). split; [reflexivity|].
    unfold Firestore.handleAddRecipe. rewrite Hready.
    cbn [negb snd Firestore.recipesCollection]. unfold Firestore.addDoc.
    apply in_or_app. right. now left.
  - cbn [snd]. rewrite Htags. now apply FormFacts.tag_selected.
Qed.

Lemma untagged_recipe_in_every_section_witness :
  In (js "doc9",
      Firestore.Recipe (js "https://youtu.be/dQw4w9WgXcQ") (js "dQw4w9WgXcQ")
        (getYoutubeThumbnailUrl (js "dQw4w9WgXcQ")) (js "Garlic Bread")
        categories)
    (Home.category_section Home.ascii_lower
       (Home.onRecipesSnapshot
          (Firestore.recipesCollection
             (snd (Firestore.handleAddRecipe (Some (js "doc9", 0))
                     (Firestore.Recipe (js "https://youtu.be/dQw4w9WgXcQ")
                        (js "dQw4w9WgXcQ")
                        (getYoutubeThumbnailUrl (js "dQw4w9WgXcQ"))
                        (js "Garlic Bread") categories)
                     sample_app sample_backend))))
       (js "GARLIC") (js "Late-night")).
Proof.
  apply (untagged_recipe_in_every_section Home.ascii_lower
           (Modal.Form (js "https://youtu.be/dQw4w9WgXcQ")
              (getYoutubeThumbnailUrl (js "dQw4w9WgXcQ")) (js "Garlic Bread")
              [] true false false)).
  - vm_compute. reflexivity.
  - reflexivity.
  - reflexivity.
  - vm_compute. reflexivity.
  - cbn. auto 10.
Defined.

(** ** Invariants of the dialog over arbitrary runs *)
Module RunFacts.
Import Modal ModalView.

(** A property kept by every event holds after every run. *)
Lemma run_invariant key (P : state -> Prop) :
  (forall st e st', P st -> step key st e = Some st' -> P st') ->
  forall tr st st', P st -> run key st tr = Some st' -> P st'.
Proof.
  intros Hstep. induction tr as [|e tr IH]; intros st st' HP Hrun.
  - cbn in Hrun. now injection Hrun as <-.
  - cbn [run] in Hrun. destruct (step key st e) as [st1|] eqn:E;
      [|discriminate].
    exact (IH st1 st' (Hstep st e st1 HP E) Hrun).
Qed.

(** The three ways a state moves. *)
Lemma step_cases key st e st' :
  step key st e = Some st' ->
  (exists t v, e = Change t v /\ st' = onChange t v st) \/
  (exists t due url, e = Fire t /\ timer st = Some (due, url) /\
                     st' = onTimer key t url st) \/
  (exists i r, e = Settle i r /\ i ∈ inflight st /\ st' = onSettle i r st).
Proof.
  destruct e as [t v|t|i r]; cbn [step]; intros H.
  - destruct (now st <=? t); [|discriminate]. injection H as <-. eauto.
  - destruct (timer st) as [[due url]|] eqn:Ht; [|discriminate].
    destruct (_ && _)%bool; [|discriminate]. injection H as <-.
    right. left. eauto 6.
  - destruct (bool_decide (i ∈ inflight st)) eqn:Hi; [|discriminate].
    injection H as <-. apply bool_decide_eq_true_1 in Hi.
    right. right. eauto.
Qed.

Lemma onChange_cases t v st :
  (v = youtubeUrl (fields st) /\
   onChange t v st = State (fields st) (timer st) (inflight st) (issued st) t) \/
  (v <> youtubeUrl (fields st) /\
   onChange t v st =
   State
     (setVideoTitle []
        (let f := setYoutubeUrl v
                    (setIsFetchingTitle false
                       (setIsLoadingThumbnail false (fields st))) in
         if truthy v
         then setIsFetchingTitle true (setIsLoadingThumbnail true f)
         else f))
     (Some (t + debounce, v)) (inflight st) (issued st) t).
Proof.
  destruct (decide (v = youtubeUrl (fields st))) as [E|E].
  - left. split; [exact E|]. unfold onChange.
    apply HandlerFacts.eqb_eq in E. now rewrite E.
  - right. split; [exact E|]. now apply ModalFacts.onChange_new.
Qed.

Lemma thumbnail_nonempty t :
  Link.is_token t -> getYoutubeThumbnailUrl t <> [].
Proof.
  intros Ht. unfold getYoutubeThumbnailUrl.
  rewrite (ResolverFacts.token_truthy t Ht). discriminate.
Qed.

End RunFacts.

(** X21.  Without an API key the dialog never issues a title fetch: over any
    run, from any state, the list of issued requests stays as it was and no
    new request becomes pending. *)
Theorem no_key_no_fetch
    (st st' : Modal.state) (tr : list Modal.event) :
  Modal.run [] st tr = Some st' ->
  Modal.issued st' = Modal.issued st /\
  Modal.inflight st' ⊆ Modal.inflight st.
Proof.
  apply (RunFacts.run_invariant []
           (fun s => Modal.issued s = Modal.issued st /\
                     Modal.inflight s ⊆ Modal.inflight st));
    [|split; [reflexivity|set_solver]].
  intros s e s' [Hi Hf] Hstep.
  destruct (RunFacts.step_cases _ _ _ _ Hstep)
    as [(t & v & _ & ->)|[(t & due & url & _ & _ & ->)|(i & r & _ & _ & ->)]].
  - destruct (RunFacts.onChange_cases t v s) as [[_ ->]|[_ ->]];
      cbn [Modal.issued Modal.inflight]; auto.
  - unfold Modal.onTimer. cbv zeta. cbn [truthy].
    destruct (truthy (getYoutubeVideoId url));
      cbn [Modal.issued Modal.inflight]; auto.
  - cbn [Modal.onSettle Modal.issued Modal.inflight]. split; [exact Hi|].
    intros j Hj. apply elem_of_difference in Hj as [Hj _]. now apply Hf.
Qed.

Lemma no_key_no_fetch_witness :
  Modal.issued
    (default Modal.mounted
       (Modal.run [] Modal.mounted
          [ Modal.Change 0 (js "https://youtu.be/dQw4w9WgXcQ");
            Modal.Fire 500 ]))
  = Modal.issued Modal.mounted.
Proof.
  apply (no_key_no_fetch Modal.mounted
           (default Modal.mounted
              (Modal.run [] Modal.mounted
                 [ Modal.Change 0 (js "https://youtu.be/dQw4w9WgXcQ");
                   Modal.Fire 500 ]))
           [ Modal.Change 0 (js "https://youtu.be/dQw4w9WgXcQ");
             Modal.Fire 500 ]).
  vm_compute. reflexivity.
Defined.

(** X22.  Every title fetch is for a well-formed identifier: if the requests
    issued so far are for eleven-character identifiers, so are the requests
    issued after any run, and every pending request number refers to one of
    them. *)
Theorem fetches_are_for_tokens
    (key : jsstring) (st st' : Modal.state) (tr : list Modal.event) :
  Forall Link.is_token (Modal.issued st) ->
  (forall i, i ∈ Modal.inflight st -> i < length (Modal.issued st)) ->
  Modal.run key st tr = Some st' ->
  Forall Link.is_token (Modal.issued st') /\
  (forall i, i ∈ Modal.inflight st' -> i < length (Modal.issued st')).
Proof.
  intros Htok Hpend.
  apply (RunFacts.run_invariant key
           (fun s => Forall Link.is_token (Modal.issued s) /\
                     (forall i, i ∈ Modal.inflight s ->
                                i < length (Modal.issued s))));
    [|split; assumption].
  intros s e s' [Hi Hf] Hstep.
  destruct (RunFacts.step_cases _ _ _ _ Hstep)
    as [(t & v & _ & ->)|[(t & due & url & _ & _ & ->)|(i & r & _ & _ & ->)]].
  - destruct (RunFacts.onChange_cases t v s) as [[_ ->]|[_ ->]];
      cbn [Modal.issued Modal.inflight]; auto.
  - unfold Modal.onTimer. cbv zeta.
    destruct (truthy (getYoutubeVideoId url)) eqn:Hv;
      [destruct (truthy key)|]; cbn [Modal.issued Modal.inflight]; auto.
    split.
    + apply Forall_app. split; [exact Hi|].
      apply List.Forall_cons; [|apply List.Forall_nil].
      now apply SubmitFacts.truthy_videoId_token.
    + intros i Hin. rewrite length_app. cbn [length].
      apply elem_of_union in Hin as [Hin|Hin].
      * apply elem_of_singleton in Hin. lia.
      * specialize (Hf i Hin). lia.
  - cbn [Modal.onSettle Modal.issued Modal.inflight]. split; [exact Hi|].
    intros j Hj. apply Hf. now apply elem_of_difference in Hj as [Hj _].
Qed.

Lemma fetches_are_for_tokens_witness :
  Forall Link.is_token
    (Modal.issued
       (default Modal.mounted
          (Modal.run sample_key Modal.mounted
             (Modal.Change 100 (js "https://youtu.be/dQw4w9WgXc")
              :: sample_burst)))).
Proof.
  apply (fetches_are_for_tokens sample_key Modal.mounted
           (default Modal.mounted
              (Modal.run sample_key Modal.mounted
                 (Modal.Change 100 (js "https://youtu.be/dQw4w9WgXc")
                  :: sample_burst)))
           (Modal.Change 100 (js "https://youtu.be/dQw4w9WgXc")
            :: sample_burst)).
  - apply List.Forall_nil.
  - intros i Hi. cbn in Hi. set_solver.
  - vm_compute. reflexivity.
Defined.

(** X23.  From the freshly mounted dialog on, the validity flag and the
    thumbnail agree: the flag is on exactly when a thumbnail URL is set, and
    that URL is the thumbnail of a well-formed identifier. *)
Theorem preview_matches_validity
    (key : jsstring) (st st' : Modal.state) (tr : list Modal.event) :
  ModalView.preview_consistent (Modal.fields st) ->
  Modal.run key st tr = Some st' ->
  ModalView.preview_consistent (Modal.fields st') /\
  (Modal.isValidUrl (Modal.fields st') = true <->
   Modal.thumbnailUrl (Modal.fields st') <> []).
Proof.
  intros H0 Hrun.
  assert (H : ModalView.preview_consistent (Modal.fields st')).
  { revert st st' H0 Hrun.
    apply (RunFacts.run_invariant key
             (fun s => ModalView.preview_consistent (Modal.fields s))).
    intros s e s' Hs Hstep.
    destruct (RunFacts.step_cases _ _ _ _ Hstep)
      as [(t & v & _ & ->)|[(t & due & url & _ & _ & ->)|(i & r & _ & _ & ->)]].
    - destruct (RunFacts.onChange_cases t v s) as [[_ ->]|[_ ->]];
        [exact Hs|].
      cbn [Modal.fields]. cbv zeta. destruct (truthy v); exact Hs.
    - unfold Modal.onTimer. cbv zeta.
      destruct (truthy (getYoutubeVideoId url)) eqn:Hv.
      + apply SubmitFacts.truthy_videoId_token in Hv.
        destruct (truthy key); left; (split; [reflexivity|]);
          exists (getYoutubeVideoId url); split; auto.
      + right. split; reflexivity.
    - exact Hs. }
  split; [exact H|].
  destruct H as [[Hv (t & Ht & Hthumb)]|[Hv Hthumb]]; rewrite Hv, Hthumb.
  - split; [intros _; now apply RunFacts.thumbnail_nonempty|reflexivity].
  - split; [discriminate|intros Hne; now contradiction Hne].
Qed.

Lemma preview_matches_validity_witness :
  ModalView.preview_consistent
    (Modal.fields
       (default Modal.mounted
          (Modal.run sample_key Modal.mounted
             (Modal.Change 100 (js "https://youtu.be/dQw4w9WgXc")
              :: sample_burst)))).
Proof.
  apply (preview_matches_validity sample_key Modal.mounted
           (default Modal.mounted
              (Modal.run sample_key Modal.mounted
                 (Modal.Change 100 (js "https://youtu.be/dQw4w9WgXc")
                  :: sample_burst)))
           (Modal.Change 100 (js "https://youtu.be/dQw4w9WgXc")
            :: sample_burst)).
  - right. split; reflexivity.
  - vm_compute. reflexivity.
Defined.

(** X24.  Without an API key the submit button of the dialog is never
    enabled: once a link has been resolved the fetching flag, raised by the
    edit, is not lowered again, so the button stays disabled in every state
    the freshly mounted dialog can reach. *)
Theorem no_key_submit_stays_disabled
    (st st' : Modal.state) (tr : list Modal.event) :
  ModalView.keyless st ->
  Modal.run [] st tr = Some st' ->
  ModalView.submitDisabled (Modal.fields st') = true.
Proof.
  intros H0 Hrun.
  assert (H : ModalView.keyless st').
  { revert st st' H0 Hrun.
    apply (RunFacts.run_invariant [] ModalView.keyless).
    intros s e s' [Hinf Hs] Hstep.
    destruct (RunFacts.step_cases _ _ _ _ Hstep)
      as [(t & v & _ & ->)|[(t & due & url & _ & Htm & ->)|(i & r & _ & Hi & ->)]].
    - destruct (RunFacts.onChange_cases t v s) as [[_ ->]|[_ ->]].
      + split; [exact Hinf|exact Hs].
      + split; [exact Hinf|]. cbn [Modal.timer Modal.fields]. cbv zeta.
        destruct v; reflexivity.
    - rewrite Htm in Hs. unfold Modal.onTimer. cbv zeta. cbn [truthy].
      destruct (truthy (getYoutubeVideoId url));
        (split; [exact Hinf|]); cbn [Modal.timer Modal.fields].
      + left. exact Hs.
      + right. reflexivity.
    - rewrite Hinf in Hi. set_solver. }
  destruct H as [_ H]. unfold ModalView.submitDisabled.
  assert (Hor : Modal.isFetchingTitle (Modal.fields st')
                = truthy (Modal.youtubeUrl (Modal.fields st')) \/
                Modal.isValidUrl (Modal.fields st') = false)
    by (destruct (Modal.timer st'); auto).
  destruct Hor as [-> | ->]; [|reflexivity].
  destruct (truthy _); [apply orb_true_r|].
  cbn [negb]. now rewrite orb_true_r.
Qed.

Lemma no_key_submit_stays_disabled_witness :
  ModalView.submitDisabled
    (Modal.fields
       (default Modal.mounted
          (Modal.run [] Modal.mounted
             [ Modal.Change 0 (js "https://youtu.be/dQw4w9WgXcQ");
               Modal.Fire 500 ])))
  = true.
Proof.
  apply (no_key_submit_stays_disabled Modal.mounted
           (default Modal.mounted
              (Modal.run [] Modal.mounted
                 [ Modal.Change 0 (js "https://youtu.be/dQw4w9WgXcQ");
                   Modal.Fire 500 ]))
           [ Modal.Change 0 (js "https://youtu.be/dQw4w9WgXcQ");
             Modal.Fire 500 ]).
  - split; reflexivity.
  - vm_compute. reflexivity.
Defined.

(** X25.  With an API key, typing a link with an extractable identifier,
    letting the timer run and the fetch settle enables the submit button, and
    submitting then hands over the typed link, its identifier, the thumbnail
    of that identifier and the resolved title ('Untitled Recipe' if the
    resolved title is empty). *)
Theorem resolved_link_can_be_submitted
    (key : jsstring) (st : Modal.state) (t t' : nat) (v : jsstring)
    (r : Modal.response) :
  key <> [] ->
  Modal.now st <= t -> t + 500 <= t' ->
  v <> Modal.youtubeUrl (Modal.fields st) ->
  getYoutubeVideoId v <> [] ->
  exists st',
    Modal.run key st
      [ Modal.Change t v; Modal.Fire t';
        Modal.Settle (length (Modal.issued st)) r ] = Some st' /\
    ModalView.submitDisabled (Modal.fields st') = false /\
    Modal.handleSubmit (Modal.fields st')
    = Some (Firestore.Recipe v (getYoutubeVideoId v)
              (getYoutubeThumbnailUrl (getYoutubeVideoId v))
              (or_else (Modal.resolved_title r) (js "Untitled Recipe"))
              (if 0 <? length (Modal.selectedTags (Modal.fields st))
               then Modal.selectedTags (Modal.fields st) else categories)).
Proof.
  intros Hkey Hnow Hlate Hne Hid.
  assert (Hv : truthy v = true).
  { destruct v; [|reflexivity]. exfalso. apply Hid. reflexivity. }
  assert (Hk : truthy key = true) by (destruct key; [contradiction|reflexivity]).
  assert (Hvid : truthy (getYoutubeVideoId v) = true)
    by (destruct (getYoutubeVideoId v); [contradiction|reflexivity]).
  eexists. split.
  - cbn [Modal.run]. rewrite ModalFacts.step_change by exact Hnow.
    rewrite ModalFacts.onChange_new by exact Hne.
    erewrite ModalFacts.step_fire;
      [|reflexivity|exact Hlate|cbn [Modal.now]; lia].
    unfold Modal.onTimer. cbv zeta. rewrite Hvid, Hk.
    rewrite ModalFacts.step_settle; [reflexivity|].
    cbn [Modal.inflight Modal.issued]. set_solver.
  - unfold ModalView.submitDisabled, Modal.handleSubmit. cbv zeta.
    rewrite Hv.
    cbn [Modal.onSettle Modal.fields Modal.setIsFetchingTitle
         Modal.setVideoTitle Modal.setIsLoadingThumbnail Modal.setIsValidUrl
         Modal.setThumbnailUrl Modal.setYoutubeUrl Modal.youtubeUrl
         Modal.thumbnailUrl Modal.videoTitle Modal.selectedTags
         Modal.isValidUrl Modal.isLoadingThumbnail Modal.isFetchingTitle].
    rewrite Hv, Hvid. split; reflexivity.
Qed.

Lemma resolved_link_can_be_submitted_witness :
  exists st',
    Modal.run sample_key Modal.mounted
      [ Modal.Change 0 (js "https://youtu.be/dQw4w9WgXcQ"); Modal.Fire 500;
        Modal.Settle 0 (Modal.Json (Some [Some (js "Never Gonna Give You Up")])) ]
    = Some st' /\
    ModalView.submitDisabled (Modal.fields st') = false.
Proof.
  destruct (resolved_link_can_be_submitted sample_key Modal.mounted 0 500
              (js "https://youtu.be/dQw4w9WgXcQ")
              (Modal.Json (Some [Some (js "Never Gonna Give You Up")])))
    as (st' & Hrun & Hen & _).
  - discriminate.
  - cbn. lia.
  - lia.
  - discriminate.
  - vm_compute. discriminate.
  - exists st'. split; assumption.
Defined.

(** ** The substring test of the search box *)
Module HomeFacts.
Import Home.

Lemma starts_with_spec : forall sub s,
  starts_with sub s = true <-> exists post, s = sub ++ post.
Proof.
  induction sub as [|a sub IH]; intros s; cbn [starts_with].
  - split; [intros _; now exists s|reflexivity].
  - destruct s as [|b s].
    + split; [discriminate|intros (post & H); discriminate H].
    + rewrite andb_true_iff, N.eqb_eq, IH. split.
      * intros (-> & post & ->). now exists post.
      * intros (post & H). injection H as -> ->. eauto.
Qed.

(** [includes] is the substring relation. *)
Lemma includes_spec : forall s sub,
  includes s sub = true <-> exists pre post, s = pre ++ sub ++ post.
Proof.
  induction s as [|b s IH]; intros sub; cbn [includes];
    rewrite orb_true_iff, starts_with_spec.
  - split.
    + intros [(post & H)|H]; [|discriminate]. exists [], post. exact H.
    + intros (pre & post & H). left. exists post.
      destruct pre; [exact H|discriminate H].
  - rewrite IH. split.
    + intros [(post & H)|(pre & post & ->)].
      * exists [], post. exact H.
      * exists (b :: pre), post. reflexivity.
    + intros (pre & post & H). destruct pre as [|x pre].
      * left. exists post. exact H.
      * right. injection H as -> ->. eauto.
Qed.

End HomeFacts.
